(** * A minimal git object store (package [git] of cmd/mygit)

    Shallow embedding of [Repository] and its operations [Init], [CatFile],
    [WriteBlob], [ReadTree], [WriteTree], [hashBlob] and [treeTable],
    together with the parts of the Go standard library they call
    ([crypto/sha1], [fmt], [strings], [path], [os], [bufio],
    [compress/zlib]).

    - Go's [string] and [[]byte] are both sequences of bytes; both are
      embedded as [string] (a list of 8-bit [ascii] characters).
    - A call that can fail returns a [result]: a value, an [error], or a
      panic (an index out of range).
    - The file system is a tree of files and directories; a call runs in a
      [world], the tree together with the trace of the file-system calls
      made so far, and returns the world it leaves.
    - SHA-1 is computed; compression is a parameter, a [zlib.Codec], with
      streams of stored blocks as an instance to compute with. *)

From Stdlib Require Import String Ascii NArith List Lia Bool PeanoNat.
From Stdlib Require Import DecimalString.
Import ListNotations.
Open Scope string_scope.

(** ** Bytes *)

Definition NUL : ascii := "000"%char.
Definition SP : ascii := " "%char.
Definition LF : ascii := "010"%char.

Definition byte_of_N (n : N) : ascii := ascii_of_N (N.land n 255).

Fixpoint bytes_of_string (s : string) : list N :=
  match s with
  | EmptyString => []
  | String c s' => N_of_ascii c :: bytes_of_string s'
  end.

(** Big-endian encoding of a 32-bit word. *)
Definition be32 (x : N) : string :=
  String (byte_of_N (N.shiftr x 24))
    (String (byte_of_N (N.shiftr x 16))
       (String (byte_of_N (N.shiftr x 8))
          (String (byte_of_N x) ""))).

(** ** crypto/sha1 *)

Module sha1.

Definition mask32 : N := 4294967295.

Definition add32 (x y : N) : N := N.land (x + y) mask32.

Definition RotateLeft32 (x k : N) : N :=
  N.land (N.lor (N.shiftl x k) (N.shiftr x (32 - k))) mask32.

Definition not32 (x : N) : N := N.lxor x mask32.

(** Big-endian encoding of the message length in bits. *)
Definition putUint64 (n : N) : list N :=
  map (fun k => N.land (N.shiftr n (8 * k)) 255) [7; 6; 5; 4; 3; 2; 1; 0]%N.

(** Padding: 0x80, zeros up to 56 mod 64, then the length in bits. *)
Definition pad (msg : list N) : list N :=
  let len := length msg in
  let zeros := ((119 - len mod 64) mod 64)%nat in
  msg ++ [128%N] ++ repeat 0%N zeros ++ putUint64 (8 * N.of_nat len).

Fixpoint words (fuel : nat) (bs : list N) : list N :=
  match fuel, bs with
  | S fuel', b0 :: b1 :: b2 :: b3 :: bs' =>
      N.lor (N.shiftl b0 24) (N.lor (N.shiftl b1 16) (N.lor (N.shiftl b2 8) b3))
      :: words fuel' bs'
  | _, _ => []
  end.

(** The message schedule, most recent word first. *)
Fixpoint schedule (n : nat) (w : list N) : list N :=
  match n with
  | O => w
  | S n' =>
      let tmp := N.lxor (nth 2 w 0%N)
                   (N.lxor (nth 7 w 0%N) (N.lxor (nth 13 w 0%N) (nth 15 w 0%N))) in
      schedule n' (RotateLeft32 tmp 1 :: w)
  end.

Definition digest : Type := (N * N * N * N * N)%type.

Definition init : digest :=
  (1732584193, 4023233417, 2562383102, 271733878, 3285377520)%N.

Definition round (i : nat) (st : digest) (wi : N) : digest :=
  let '(a, b, c, d, e) := st in
  let '(f, k) :=
    if (i <? 20)%nat then
      (N.lor (N.land b c) (N.land (not32 b) d), 1518500249%N)
    else if (i <? 40)%nat then
      (N.lxor b (N.lxor c d), 1859775393%N)
    else if (i <? 60)%nat then
      (N.lor (N.land (N.lor b c) d) (N.land b c), 2400959708%N)
    else
      (N.lxor b (N.lxor c d), 3395469782%N) in
  let t := add32 (add32 (add32 (add32 (RotateLeft32 a 5) f) e) wi) k in
  (t, a, RotateLeft32 b 30, c, d).

Fixpoint rounds (i : nat) (ws : list N) (st : digest) : digest :=
  match ws with
  | [] => st
  | wi :: ws' => rounds (S i) ws' (round i st wi)
  end.

Definition block (h : digest) (p : list N) : digest :=
  let w := rev (schedule 64 (rev (words 16 p))) in
  let '(h0, h1, h2, h3, h4) := h in
  let '(a, b, c, d, e) := rounds 0 w h in
  (add32 h0 a, add32 h1 b, add32 h2 c, add32 h3 d, add32 h4 e).

Fixpoint blocks (fuel : nat) (h : digest) (p : list N) : digest :=
  match fuel, p with
  | S fuel', _ :: _ => blocks fuel' (block h (firstn 64 p)) (skipn 64 p)
  | _, _ => h
  end.

(** [sha1.Sum]: the 20-byte checksum of the data. *)
Definition Sum (data : string) : string :=
  let p := pad (bytes_of_string data) in
  let '(h0, h1, h2, h3, h4) := blocks (length p) init p in
  be32 h0 ++ be32 h1 ++ be32 h2 ++ be32 h3 ++ be32 h4.

End sha1.

(** ** fmt *)

Module fmt.

Definition hexdigit (n : N) : ascii :=
  match n with
  | 0 => "0" | 1 => "1" | 2 => "2" | 3 => "3" | 4 => "4" | 5 => "5"
  | 6 => "6" | 7 => "7" | 8 => "8" | 9 => "9" | 10 => "a" | 11 => "b"
  | 12 => "c" | 13 => "d" | 14 => "e" | _ => "f"
  end%N%char.

(** The verb [%x] applied to a byte sequence: two lowercase hexadecimal
    digits per byte. *)
Fixpoint x (bs : string) : string :=
  match bs with
  | EmptyString => ""
  | String c bs' =>
      let n := N_of_ascii c in
      String (hexdigit (N.shiftr n 4)) (String (hexdigit (N.land n 15)) (x bs'))
  end.

(** The verb [%d] applied to a length. *)
Definition d (n : nat) : string := NilZero.string_of_uint (Nat.to_uint n).

End fmt.






(** ** Errors and results *)

(** Go's [error] values.  [Errorf] and [Wrapf] are [fmt.Errorf] without and
    with a [%w] verb: the format string is the one of the source, [args] are
    the other operands already rendered. *)
Inductive error : Type :=
| ErrRepositoryAlreadyInitialized
| ErrInvalidHash
| io_EOF
| fs_ErrNotExist
| syscall_ENOTDIR
| syscall_EISDIR
| zlib_ErrHeader
| Errorf (format : string) (args : list string)
| Wrapf (format : string) (args : list string) (wrapped : error).

Definition error_eqb_base (e target : error) : bool :=
  match e, target with
  | ErrRepositoryAlreadyInitialized, ErrRepositoryAlreadyInitialized => true
  | ErrInvalidHash, ErrInvalidHash => true
  | io_EOF, io_EOF => true
  | fs_ErrNotExist, fs_ErrNotExist => true
  | syscall_ENOTDIR, syscall_ENOTDIR => true
  | syscall_EISDIR, syscall_EISDIR => true
  | zlib_ErrHeader, zlib_ErrHeader => true
  | _, _ => false
  end.

Module errors.

(** [errors.Is]: [target] occurs in the chain of wrapped errors of [e]. *)
Fixpoint Is (e target : error) : bool :=
  error_eqb_base e target ||
  match e with
  | Wrapf _ _ e' => Is e' target
  | _ => false
  end.

End errors.

(** What a call produces: a value, an error, or a run-time panic. *)
Inductive result (A : Type) : Type :=
| Ok (a : A)
| Err (e : error)
| Panic (msg : string).

Arguments Ok {A} a.
Arguments Err {A} e.
Arguments Panic {A} msg.

(** ** Strings *)

(** Go's slices [s[:n]] and [s[n:]] (within bounds). *)
Fixpoint take (n : nat) (s : string) : string :=
  match n, s with
  | S n', String c s' => String c (take n' s')
  | _, _ => ""
  end.

Fixpoint drop (n : nat) (s : string) : string :=
  match n, s with
  | S n', String _ s' => drop n' s'
  | _, _ => s
  end.

Fixpoint contains (c : ascii) (s : string) : bool :=
  match s with
  | EmptyString => false
  | String c' s' => Ascii.eqb c' c || contains c s'
  end.

(** [cut delim s]: the prefix of [s] through the first [delim], and what
    follows it. *)
Fixpoint cut (delim : ascii) (s : string) : option (string * string) :=
  match s with
  | EmptyString => None
  | String c s' =>
      if Ascii.eqb c delim then Some (String c "", s')
      else match cut delim s' with
           | Some (line, rest) => Some (String c line, rest)
           | None => None
           end
  end.

Module strings.

(** [strings.Split(s, sep)] for a one-byte separator. *)
Fixpoint Split (s : string) (sep : ascii) : list string :=
  match s with
  | EmptyString => [""]
  | String c s' =>
      if Ascii.eqb c sep then "" :: Split s' sep
      else match Split s' sep with
           | part :: parts => String c part :: parts
           | [] => [String c ""]
           end
  end.

(** [strings.Join(elems, sep)]. *)
Fixpoint Join (elems : list string) (sep : string) : string :=
  match elems with
  | [] => ""
  | [e] => e
  | e :: elems' => e ++ sep ++ Join elems' sep
  end.

End strings.

(** Indexing a slice, which panics out of range. *)
Definition index {A : Type} (l : list A) (i : nat) : result A :=
  match nth_error l i with
  | Some a => Ok a
  | None => Panic "index out of range"
  end.

(** ** The file system *)

(** A path, as the list of its elements. *)
Definition pathname : Type := list string.

Module path.

(** [path.Join]: the elements of [elems] appended to [p]. *)
Definition Join (p : pathname) (elems : list string) : pathname :=
  (p ++ elems)%list.

End path.

Unset Elimination Schemes.
Inductive node : Type :=
| File (data : string)
| Dir (entries : list (string * node)).
Set Elimination Schemes.

(** A directory keeps its entries sorted by name, the order in which
    [os.ReadDir] lists them. *)
Fixpoint lookup_entry (name : string) (es : list (string * node)) : option node :=
  match es with
  | [] => None
  | (k, v) :: es' => if String.eqb name k then Some v else lookup_entry name es'
  end.

Fixpoint insert_entry (name : string) (n : node) (es : list (string * node))
  : list (string * node) :=
  match es with
  | [] => [(name, n)]
  | (k, v) :: es' =>
      match String.compare name k with
      | Eq => (name, n) :: es'
      | Lt => (name, n) :: (k, v) :: es'
      | Gt => (k, v) :: insert_entry name n es'
      end
  end.

Fixpoint remove_entry (name : string) (es : list (string * node))
  : list (string * node) :=
  match es with
  | [] => []
  | (k, v) :: es' =>
      if String.eqb name k then remove_entry name es'
      else (k, v) :: remove_entry name es'
  end.

Fixpoint lookup (p : pathname) (n : node) : option node :=
  match p with
  | [] => Some n
  | name :: p' =>
      match n with
      | File _ => None
      | Dir es =>
          match lookup_entry name es with
          | Some c => lookup p' c
          | None => None
          end
      end
  end.

(** Creates the directory [p] and every missing parent; fails when a
    component of [p] exists and is a file. *)
Fixpoint mkdirAll (p : pathname) (n : node) : option node :=
  match n with
  | File _ => None
  | Dir es =>
      match p with
      | [] => Some n
      | name :: p' =>
          let child := match lookup_entry name es with
                       | Some c => c
                       | None => Dir []
                       end in
          match mkdirAll p' child with
          | Some c' => Some (Dir (insert_entry name c' es))
          | None => None
          end
      end
  end.

(** Creates or truncates the file [p] with contents [data]; fails when the
    parent directory is missing or [p] is a directory. *)
Fixpoint writeFile (p : pathname) (data : string) (n : node) : option node :=
  match p with
  | [] =>
      match n with
      | File _ => Some (File data)
      | Dir _ => None
      end
  | name :: p' =>
      match n with
      | File _ => None
      | Dir es =>
          match lookup_entry name es, p' with
          | None, [] => Some (Dir (insert_entry name (File data) es))
          | None, _ :: _ => None
          | Some c, _ =>
              match writeFile p' data c with
              | Some c' => Some (Dir (insert_entry name c' es))
              | None => None
              end
          end
      end
  end.

Fixpoint removeAll (p : pathname) (n : node) : node :=
  match p, n with
  | [], _ => Dir []
  | _, File _ => n
  | [name], Dir es => Dir (remove_entry name es)
  | name :: p', Dir es =>
      match lookup_entry name es with
      | Some c => Dir (insert_entry name (removeAll p' c) es)
      | None => n
      end
  end.

(** The calls that reach the file system. *)
Inductive syscall : Type :=
| sys_MkdirAll (p : pathname)
| sys_WriteFile (p : pathname)
| sys_Open (p : pathname)
| sys_Create (p : pathname)
| sys_Write (p : pathname)
| sys_ReadDir (p : pathname)
| sys_RemoveAll (p : pathname).

(** The world a call runs in: the file tree, and the file-system calls made
    so far (latest first). *)
Record world : Type := mkWorld { tree : node; trace : list syscall }.

Definition M (A : Type) : Type := world -> result A * world.

Definition ret {A : Type} (a : A) : M A := fun w => (Ok a, w).

Definition fail {A : Type} (e : error) : M A := fun w => (Err e, w).

Definition bind {A B : Type} (m : M A) (k : A -> M B) : M B :=
  fun w =>
    match m w with
    | (Ok a, w') => k a w'
    | (Err e, w') => (Err e, w')
    | (Panic msg, w') => (Panic msg, w')
    end.

(** [m] with its error, if any, passed through [f] (the
    [if err != nil { return ..., fmt.Errorf(...) }] idiom). *)
Definition onErr {A : Type} (m : M A) (f : error -> error) : M A :=
  fun w =>
    match m w with
    | (Err e, w') => (Err (f e), w')
    | other => other
    end.

Definition lift {A : Type} (r : result A) : M A := fun w => (r, w).

Declare Scope go_scope.
Delimit Scope go_scope with go.
Notation "x <- m ;; k" := (bind m (fun x => k))
  (at level 61, m at next level, right associativity) : go_scope.
Notation "' pat <- m ;; k" := (bind m (fun x => match x with pat => k end))
  (at level 61, pat pattern, m at next level, right associativity) : go_scope.
Notation "m ;;; k" := (bind m (fun _ => k))
  (at level 61, right associativity) : go_scope.
Open Scope go_scope.

Module os.

Definition log (c : syscall) (w : world) : world :=
  mkWorld (tree w) (c :: trace w).

Definition MkdirAll (p : pathname) : M unit :=
  fun w =>
    let w := log (sys_MkdirAll p) w in
    match mkdirAll p (tree w) with
    | Some t => (Ok tt, mkWorld t (trace w))
    | None => (Err syscall_ENOTDIR, w)
    end.

Definition WriteFile (p : pathname) (data : string) : M unit :=
  fun w =>
    let w := log (sys_WriteFile p) w in
    match writeFile p data (tree w) with
    | Some t => (Ok tt, mkWorld t (trace w))
    | None =>
        (Err (match lookup p (tree w) with
              | Some _ => syscall_EISDIR
              | None => fs_ErrNotExist
              end), w)
    end.

(** An open file: its path and what it holds. *)
Definition file : Type := (pathname * node)%type.

Definition Open (p : pathname) : M file :=
  fun w =>
    let w := log (sys_Open p) w in
    match lookup p (tree w) with
    | Some n => (Ok (p, n), w)
    | None => (Err fs_ErrNotExist, w)
    end.

(** [os.Create]: the file is created, or truncated when it exists. *)
Definition Create (p : pathname) : M file :=
  fun w =>
    let w := log (sys_Create p) w in
    match writeFile p "" (tree w) with
    | Some t => (Ok (p, File ""), mkWorld t (trace w))
    | None =>
        (Err (match lookup p (tree w) with
              | Some _ => syscall_EISDIR
              | None => fs_ErrNotExist
              end), w)
    end.

(** Everything written to an open file, once its writer is closed. *)
Definition Write (f : file) (data : string) : M unit :=
  fun w =>
    let w := log (sys_Write (fst f)) w in
    match writeFile (fst f) data (tree w) with
    | Some t => (Ok tt, mkWorld t (trace w))
    | None => (Err fs_ErrNotExist, w)
    end.

(** Reading an open file to its end ([ioutil.ReadAll]). *)
Definition ReadAll (f : file) : result string :=
  match snd f with
  | File data => Ok data
  | Dir _ => Err syscall_EISDIR
  end.

(** [file.Stat().Size()]; for a directory the size is that of its
    listing, which no caller uses. *)
Definition Size (f : file) : nat :=
  match snd f with
  | File data => String.length data
  | Dir es => List.length es
  end.

Definition RemoveAll (p : pathname) : M unit :=
  fun w =>
    let w := log (sys_RemoveAll p) w in
    (Ok tt, mkWorld (removeAll p (tree w)) (trace w)).

End os.

(** ** bufio *)

Module bufio.

Definition defaultBufSize : nat := 4096.

(** A [bufio.Reader]: [buf] is the unread part of its buffer, [rd] what
    the underlying reader has still to deliver.  The underlying reader
    hands over as many bytes as it is asked for while it has them, and
    reports [io.EOF] once it has none. *)
Record Reader : Type := mkReader { buf : string; rd : string }.

Definition NewReader (rd : string) : Reader := mkReader "" rd.

(** One read of the underlying reader into the free part of the buffer. *)
Definition fill (b : Reader) : Reader :=
  let n := Nat.min (defaultBufSize - String.length (buf b)) (String.length (rd b)) in
  mkReader (buf b ++ take n (rd b)) (drop n (rd b)).

(** [ReadString]: reads through the first [delim].  A full buffer without
    [delim] is moved to the accumulated fragments [acc] and refilled; at
    the end of the input what was read is returned with [io.EOF]. *)
Fixpoint readString (fuel : nat) (delim : ascii) (acc : string) (b : Reader)
  : (string * option error) * Reader :=
  match cut delim (buf b) with
  | Some (line, rest) => ((acc ++ line, None), mkReader rest (rd b))
  | None =>
      match fuel, rd b with
      | S fuel', String _ _ =>
          if (defaultBufSize <=? String.length (buf b))%nat then
            readString fuel' delim (acc ++ buf b) (fill (mkReader "" (rd b)))
          else
            readString fuel' delim acc (fill b)
      | _, _ => ((acc ++ buf b, Some io_EOF), mkReader "" "")
      end
  end.

Definition ReadString (delim : ascii) (b : Reader)
  : (string * option error) * Reader :=
  readString (String.length (rd b)) delim "" b.

(** [Peek(1)]. *)
Definition Peek1 (b : Reader) : option error * Reader :=
  let b := match buf b with EmptyString => fill b | _ => b end in
  match buf b with
  | EmptyString => (Some io_EOF, b)
  | _ => (None, b)
  end.

(** [Read(p)] with [0 < len(p) = n < defaultBufSize]: when nothing is
    buffered the underlying reader is read once; then as much as is
    buffered, and at most [n] bytes, is copied.  The count can be less
    than [n] without an error. *)
Definition Read (n : nat) (b : Reader) : (nat * option error) * Reader :=
  let b := match buf b with EmptyString => fill b | _ => b end in
  match buf b with
  | EmptyString => ((0, Some io_EOF), b)
  | _ =>
      let k := Nat.min n (String.length (buf b)) in
      ((k, None), mkReader (drop k (buf b)) (rd b))
  end.

End bufio.

(** ** compress/zlib *)

Module zlib.

(** The compressor and decompressor: [deflate] is what a [zlib.Writer]
    has written once closed, [inflate] what a [zlib.Reader] delivers, or
    [None] on a stream that is not valid. *)
Record Codec : Type := mkCodec {
  deflate : string -> string;
  inflate : string -> option string
}.

(** [zlib.NewReader] on an open file.  An invalid stream is reported
    here, whole. *)
Definition NewReader (z : Codec) (f : os.file) : result string :=
  match snd f with
  | Dir _ => Err syscall_EISDIR
  | File c =>
      match inflate z c with
      | Some data => Ok data
      | None => Err zlib_ErrHeader
      end
  end.

(** [zlib.NewWriter(f)], [Write(data)] and the deferred [Close]. *)
Definition Write (z : Codec) (f : os.file) (data : string) : M unit :=
  os.Write f (deflate z data).

(** *** A codec: zlib streams of stored blocks (level [NoCompression]) *)

Definition adler32 (data : string) : N :=
  let fix go (s : string) (a b : N) : N :=
    match s with
    | EmptyString => N.lor (N.shiftl b 16) a
    | String c s' =>
        let a' := ((a + N_of_ascii c) mod 65521)%N in
        go s' a' ((b + a') mod 65521)%N
    end in
  go data 1%N 0%N.

Definition le16 (n : N) : string :=
  String (byte_of_N n) (String (byte_of_N (N.shiftr n 8)) "").

Definition maxStored : N := 65535.

Definition storedBlock (final : bool) (chunk : string) : string :=
  let len := N.of_nat (String.length chunk) in
  String (if final then "001"%char else "000"%char)
    (le16 len ++ le16 (maxStored - len) ++ chunk).

Fixpoint storedBlocks (fuel : nat) (data : string) : string :=
  match fuel with
  | S fuel' =>
      if (N.of_nat (String.length data) <=? maxStored)%N then storedBlock true data
      else storedBlock false (take (N.to_nat maxStored) data)
             ++ storedBlocks fuel' (drop (N.to_nat maxStored) data)
  | O => storedBlock true data
  end.

Definition deflateStored (data : string) : string :=
  String "120"%char (String "001"%char
    (storedBlocks (String.length data) data ++ be32 (adler32 data))).

Fixpoint inflateBlocks (fuel : nat) (s : string) (out : string)
  : option (string * string) :=
  match fuel, s with
  | S fuel', String h (String l0 (String l1 (String n0 (String n1 s')))) =>
      let len := (N_of_ascii l0 + 256 * N_of_ascii l1)%N in
      let nlen := (N_of_ascii n0 + 256 * N_of_ascii n1)%N in
      if negb (len + nlen =? maxStored)%N
         || (N.of_nat (String.length s') <? len)%N then None
      else if Ascii.eqb h "001"%char then
        Some (out ++ take (N.to_nat len) s', drop (N.to_nat len) s')
      else if Ascii.eqb h "000"%char then
        inflateBlocks fuel' (drop (N.to_nat len) s') (out ++ take (N.to_nat len) s')
      else None
  | _, _ => None
  end.

Definition inflateStored (s : string) : option string :=
  match s with
  | String "120"%char (String "001"%char s') =>
      match inflateBlocks (String.length s') s' "" with
      | Some (out, trailer) =>
          if String.eqb trailer (be32 (adler32 out)) then Some out else None
      | None => None
      end
  | _ => None
  end.

Definition NoCompression : Codec := mkCodec deflateStored inflateStored.

End zlib.

(** ** package git *)

Module git.

Record Repository : Type := mkRepository {
  root : pathname;
  initialized : bool
}.

Definition NewRepository (root : pathname) : Repository :=
  mkRepository root false.

(** The [cleanup] closure that [Init] returns with every result. *)
Definition cleanup (r : Repository) : M unit :=
  onErr (os.RemoveAll (path.Join (root r) [".git"])) (Wrapf "error cleaning up: %w" []).

Fixpoint mkdirs (dirs : list pathname) : M unit :=
  match dirs with
  | [] => ret tt
  | dir :: dirs' =>
      onErr (os.MkdirAll dir)
        (Wrapf "error creating directory %s: %w" [strings.Join dir "/"]) ;;;
      mkdirs dirs'
  end.

(** [Init] has a pointer receiver: the repository it leaves is returned
    next to its results (the [cleanup] closure and the error, if any) and
    the world. *)
Definition Init (r : Repository) (w : world)
  : (M unit * result unit) * Repository * world :=
  if initialized r then
    ((cleanup r, Err ErrRepositoryAlreadyInitialized), r, w)
  else
    let dirs := [ path.Join (root r) [".git"];
                  path.Join (root r) [".git"; "objects"];
                  path.Join (root r) [".git"; "refs"] ] in
    let filePath := path.Join (root r) [".git"; "HEAD"] in
    let headFileContents := "ref: refs/heads/master" ++ String LF "" in
    match (mkdirs dirs ;;;
           onErr (os.WriteFile filePath headFileContents)
             (Wrapf "error writing to file %s: %w" [strings.Join filePath "/"])) w
    with
    | (Ok _, w') => ((cleanup r, Ok tt), mkRepository (root r) true, w')
    | (failure, w') => ((cleanup r, failure), r, w')
    end.

(** An [fs.FS]: its [Open] method. *)
Definition FS : Type := string -> M os.file.

(** [os.DirFS(dir)]. *)
Definition DirFS (dir : pathname) : FS := fun name => os.Open (path.Join dir [name]).

(** [os.DirFS(dirname)] for a directory whose listing [entries] has just
    been read. *)
Definition DirFSAt (dirname : pathname) (entries : list (string * node)) : FS :=
  fun name w =>
    let w := os.log (sys_Open (path.Join dirname [name])) w in
    match lookup_entry name entries with
    | Some n => (Ok (path.Join dirname [name], n), w)
    | None => (Err fs_ErrNotExist, w)
    end.

Definition hashBlob (fsys : FS) (filename : string) : M (string * string) :=
  file <- onErr (fsys filename) (Wrapf "failed to open file: %w" []) ;;
  let size := os.Size file in
  fBuf <- onErr (lift (os.ReadAll file)) (Wrapf "failed to copy the contents: %w" []) ;;
  let header := "blob " ++ fmt.d size ++ String NUL "" in
  let blob := header ++ fBuf in
  let hash := fmt.x (sha1.Sum blob) in
  ret (hash, blob).

(** The loop [for _, dirEntry := range dirEntries] of [treeTable]: [es]
    are the entries still to visit, [table] the bytes appended so far and
    [treeTable] the recursive call. *)
Fixpoint rangeEntries (treeTable : pathname -> node -> M string)
    (dirname : pathname) (dirEntries es : list (string * node))
    (table : string) {struct es} : M string :=
  match es with
  | [] => ret table
  | (name, dirEntry) :: es' =>
      match dirEntry with
      | Dir _ =>
          if String.eqb name ".git" then
            rangeEntries treeTable dirname dirEntries es' table
          else
            subHash <- onErr (treeTable (path.Join dirname [name]) dirEntry)
                         (Wrapf "failed to write the tree: %w" []) ;;
            rangeEntries treeTable dirname dirEntries es'
              (table ++ "40000 " ++ name ++ String NUL ""
                 ++ fmt.x (sha1.Sum subHash))
      | File _ =>
          '(hash, _) <- onErr (hashBlob (DirFSAt dirname dirEntries) name)
                          (Wrapf "failed to hash the file: %w" []) ;;
          rangeEntries treeTable dirname dirEntries es'
            (table ++ "100644 " ++ name ++ String NUL "" ++ hash)
      end
  end.

(** [treeTable(dirname)], by recursion on the directory [dir] that
    [os.ReadDir(dirname)] finds. *)
Fixpoint treeTable (dirname : pathname) (dir : node) {struct dir} : M string :=
  match dir with
  | File _ =>
      fun w => (Err (Wrapf "failed to read the directory: %w" [] syscall_ENOTDIR),
                os.log (sys_ReadDir dirname) w)
  | Dir dirEntries =>
      fun w => rangeEntries treeTable dirname dirEntries dirEntries ""
                 (os.log (sys_ReadDir dirname) w)
  end.

(** [treeTable(dirname)] from the path: [os.ReadDir] resolves it. *)
Definition treeTableAt (dirname : pathname) : M string :=
  fun w =>
    match lookup dirname (tree w) with
    | Some dir => treeTable dirname dir w
    | None =>
        (Err (Wrapf "failed to read the directory: %w" [] fs_ErrNotExist),
         os.log (sys_ReadDir dirname) w)
    end.

Definition objectPath (r : Repository) (hash : string) : pathname :=
  path.Join (root r) [".git"; "objects"; take 2 hash; drop 2 hash].

(** The loop of [ReadTree] over the entries.  Every turn consumes input,
    so [fuel] above the length of the input is never used up. *)
Fixpoint readEntries (fuel : nat) (br : bufio.Reader) (names : list string)
  : result (list string) :=
  match fuel with
  | O => Panic "unreachable"
  | S fuel' =>
      let '(err, br) := bufio.Peek1 br in
      match err with
      | Some io_EOF => Ok names
      | Some e => Err (Wrapf "error peeking: %w" [] e)
      | None =>
          let '((_, err), br) := bufio.ReadString SP br in
          match err with
          | Some e => Err (Wrapf "error reading mode: %w" [] e)
          | None =>
              let '((name, err), br) := bufio.ReadString NUL br in
              match err with
              | Some e => Err (Wrapf "error reading name: %w" [] e)
              | None =>
                  let names := (names ++ [hd "" (strings.Split name NUL)])%list in
                  let '((_, err), br) := bufio.Read 20 br in
                  match err with
                  | Some e => Err (Wrapf "error reading hash: %w" [] e)
                  | None => readEntries fuel' br names
                  end
              end
          end
      end
  end.

(** What [ReadTree] does with the decompressed object. *)
Definition parseTree (reader : string) : result string :=
  let br := bufio.NewReader reader in
  let '((typ, err), br) := bufio.ReadString SP br in
  match err with
  | Some e => Err (Wrapf "error reading type: %w" [] e)
  | None =>
      if negb (String.eqb typ "tree ") then
        Err (Errorf "expected type to be tree, got: %s" [typ])
      else
        let '((_, err), br) := bufio.ReadString NUL br in
        match err with
        | Some e => Err (Wrapf "error reading null byte: %w" [] e)
        | None =>
            match readEntries (S (String.length reader)) br [] with
            | Ok names => Ok (strings.Join names (String LF "") ++ String LF "")
            | Err e => Err e
            | Panic msg => Panic msg
            end
        end
  end.

Section WithCodec.

Variable z : zlib.Codec.

Definition CatFile (r : Repository) (hash : string) : M string :=
  let isValid := (String.length hash =? 40)%nat in
  if negb isValid then
    fail (Wrapf "%w expected 40 characters, got: %d"
            [fmt.d (String.length hash)] ErrInvalidHash)
  else
    let blobPath := objectPath r hash in
    blobFile <- onErr (os.Open blobPath)
                  (fun err =>
                     if errors.Is err fs_ErrNotExist then
                       Errorf "object: %s does not exist" [strings.Join blobPath "/"]
                     else Wrapf "failed to open file: %w" [] err) ;;
    blob <- onErr (lift (zlib.NewReader z blobFile))
              (Wrapf "failed to read the contents: %w" []) ;;
    let contents := blob in
    lift (index (strings.Split contents NUL) 1).

Definition WriteBlob (r : Repository) (fsys : FS) (filename : string)
  : M string :=
  '(hash, blob) <- onErr (hashBlob fsys filename)
                     (Wrapf "failed to hash the file: %w" []) ;;
  let dirPath := path.Join (root r) [".git"; "objects"; take 2 hash] in
  onErr (os.MkdirAll dirPath) (Wrapf "failed to create the directory: %w" []) ;;;
  blobFile <- onErr (os.Create (path.Join dirPath [drop 2 hash]))
                (Wrapf "failed to create the file: %w" []) ;;
  onErr (zlib.Write z blobFile blob)
    (Wrapf "failed to compress the contents: %w" []) ;;;
  ret hash.

Definition ReadTree (r : Repository) (hash : string) : M string :=
  let isValid := (String.length hash =? 40)%nat in
  if negb isValid then
    fail (Wrapf "%w expected 40 characters, got: %d"
            [fmt.d (String.length hash)] ErrInvalidHash)
  else
    let blobPath := objectPath r hash in
    blobFile <- onErr (os.Open blobPath) (Wrapf "failed to open file: %w" []) ;;
    reader <- onErr (lift (zlib.NewReader z blobFile))
                (Wrapf "failed to read the contents: %w" []) ;;
    lift (parseTree reader).

Definition WriteTree (r : Repository) (dirname : pathname) : M string :=
  treeTable <- onErr (treeTableAt dirname)
                 (Wrapf "failed to hash the tree: %w" []) ;;
  let output := "tree " ++ fmt.d (String.length treeTable)
                  ++ String NUL "" ++ treeTable in
  let hash := fmt.x (sha1.Sum output) in
  let dirPath := path.Join (root r) [".git"; "objects"; take 2 hash] in
  onErr (os.MkdirAll dirPath) (Wrapf "failed to create the directory: %w" []) ;;;
  treeFile <- onErr (os.Create (path.Join dirPath [drop 2 hash]))
                (Wrapf "failed to create the file: %w" []) ;;
  onErr (zlib.Write z treeFile output)
    (Wrapf "failed to compress the contents: %w" []) ;;;
  ret hash.

End WithCodec.

End git.

(** ** The earlier revision of [ReadTree]

    [src/cmd/mygit/git/git.go] holds an earlier revision of the package.
    Its [Init] and [CatFile] are the ones above, its [WriteBlob] does the
    hashing of [hashBlob] in place, and it has no [WriteTree].  Its
    [ReadTree] differs in two lines: the name it keeps is
    [name[:len("\x00")-1]], which is [name[:0]], and nothing follows the
    joined names. *)

Module Earlier.

Fixpoint readEntries (fuel : nat) (br : bufio.Reader) (names : list string)
  : result (list string) :=
  match fuel with
  | O => Panic "unreachable"
  | S fuel' =>
      let '(err, br) := bufio.Peek1 br in
      match err with
      | Some io_EOF => Ok names
      | Some e => Err (Wrapf "error peeking: %w" [] e)
      | None =>
          let '((_, err), br) := bufio.ReadString SP br in
          match err with
          | Some e => Err (Wrapf "error reading mode: %w" [] e)
          | None =>
              let '((name, err), br) := bufio.ReadString NUL br in
              match err with
              | Some e => Err (Wrapf "error reading name: %w" [] e)
              | None =>
                  let names := (names ++ [take (String.length (String NUL "") - 1) name])%list in
                  let '((_, err), br) := bufio.Read 20 br in
                  match err with
                  | Some e => Err (Wrapf "error reading hash: %w" [] e)
                  | None => readEntries fuel' br names
                  end
              end
          end
      end
  end.

Definition parseTree (reader : string) : result string :=
  let br := bufio.NewReader reader in
  let '((typ, err), br) := bufio.ReadString SP br in
  match err with
  | Some e => Err (Wrapf "error reading type: %w" [] e)
  | None =>
      if negb (String.eqb typ "tree ") then
        Err (Errorf "expected type to be tree, got: %s" [typ])
      else
        let '((_, err), br) := bufio.ReadString NUL br in
        match err with
        | Some e => Err (Wrapf "error reading null byte: %w" [] e)
        | None =>
            match readEntries (S (String.length reader)) br [] with
            | Ok names => Ok (strings.Join names (String LF ""))
            | Err e => Err e
            | Panic msg => Panic msg
            end
        end
  end.

Definition ReadTree (z : zlib.Codec) (r : git.Repository) (hash : string)
  : M string :=
  let isValid := (String.length hash =? 40)%nat in
  if negb isValid then
    fail (Wrapf "%w expected 40 characters, got: %d"
            [fmt.d (String.length hash)] ErrInvalidHash)
  else
    let blobPath := git.objectPath r hash in
    blobFile <- onErr (os.Open blobPath) (Wrapf "failed to open file: %w" []) ;;
    reader <- onErr (lift (zlib.NewReader z blobFile))
                (Wrapf "failed to read the contents: %w" []) ;;
    lift (parseTree reader).

(** [WriteBlob] before [hashBlob] was taken out of it. *)
Definition WriteBlob (z : zlib.Codec) (r : git.Repository) (fsys : git.FS)
    (filename : string) : M string :=
  f <- onErr (fsys filename) (Wrapf "failed to open file: %w" []) ;;
  let size := os.Size f in
  fBuf <- onErr (lift (os.ReadAll f)) (Wrapf "failed to copy the contents: %w" []) ;;
  let header := "blob " ++ fmt.d size ++ String NUL "" in
  let blob := header ++ fBuf in
  let hash := fmt.x (sha1.Sum blob) in
  let dirPath := path.Join (git.root r) [".git"; "objects"; take 2 hash] in
  onErr (os.MkdirAll dirPath) (Wrapf "failed to create the directory: %w" []) ;;;
  blobFile <- onErr (os.Create (path.Join dirPath [drop 2 hash]))
                (Wrapf "failed to create the file: %w" []) ;;
  onErr (zlib.Write z blobFile blob)
    (Wrapf "failed to compress the contents: %w" []) ;;;
  ret hash.

End Earlier.

(** ** Sample repositories *)

Module Sample.

Definition z : zlib.Codec := zlib.NoCompression.

Definition repo : git.Repository := git.NewRepository ["repo"].

(** [repo/a], an empty file. *)
Definition oneFile : world :=
  mkWorld (Dir [("repo", Dir [("a", File "")])]) [].

(** [repo/.git/HEAD] and [repo/d/x]. *)
Definition oneDir : world :=
  mkWorld (Dir [("repo", Dir [(".git", Dir [("HEAD", File "x")]);
                              ("d", Dir [("x", File "hi")])])]) [].

(** [repo/test.txt], holding [test content] without a final newline. *)
Definition testFile : world :=
  mkWorld (Dir [("repo", Dir [("test.txt", File "test content")])]) [].

(** [repo/bin.dat], with a null byte in it. *)
Definition binFile : world :=
  mkWorld (Dir [("repo", Dir [("bin.dat", File ("ab" ++ String NUL "cd"))])]) [].

(** The object with the framed bytes [frame], stored the way [WriteBlob]
    and [WriteTree] store one. *)
Definition putObject (r : git.Repository) (frame : string) (t : node) : node :=
  let hash := fmt.x (sha1.Sum frame) in
  match mkdirAll (path.Join (git.root r) [".git"; "objects"; take 2 hash]) t with
  | Some t1 =>
      match writeFile (git.objectPath r hash) (zlib.deflateStored frame) t1 with
      | Some t2 => t2
      | None => t
      end
  | None => t
  end.

(** The payload of the tree that git writes for a directory with a file
    [a.txt] and a directory [a]: git orders the entries as if the name of
    a directory ended in a slash, so [a.txt] comes first. *)
Definition payload : string :=
  ("100644 a.txt" ++ String NUL (sha1.Sum ("blob 0" ++ String NUL "")))
  ++ ("40000 a" ++ String NUL (sha1.Sum ("tree 0" ++ String NUL ""))).

Definition gitTree : string :=
  "tree " ++ fmt.d (String.length payload) ++ String NUL payload.

(** The same object with its last [n] bytes missing. *)
Definition cutTree (n : nat) : string :=
  "tree " ++ fmt.d (String.length payload)
    ++ String NUL (take (String.length payload - n) payload).

Definition stored (frame : string) : world :=
  mkWorld (putObject repo frame (Dir [])) [].

End Sample.

(** ** Vocabulary of the properties *)

(** [p] is an initial segment of [q]. *)
Definition is_prefix (p q : pathname) : Prop := exists s, q = (p ++ s)%list.

(** [m] leaves the file tree as it found it (it may extend the trace). *)
Definition keeps_tree {A : Type} (m : M A) : Prop :=
  forall w, tree (snd (m w)) = tree w.

(** The framed tree object that [WriteTree] hashes and stores. *)
Definition treeFrame (table : string) : string :=
  "tree " ++ fmt.d (String.length table) ++ String NUL "" ++ table.

(** The framed blob that [hashBlob] hashes. *)
Definition blobFrame (payload : string) : string :=
  ("blob " ++ fmt.d (String.length payload) ++ String NUL "") ++ payload.

(** An entry of a tree object as [ReadTree] expects it: the mode, a space,
    the name, a null byte and a hash field of 20 bytes. *)
Record TreeEntry : Type := mkEntry {
  entry_mode : string;
  entry_name : string;
  entry_hash : string
}.

Definition encodeEntry (e : TreeEntry) : string :=
  entry_mode e ++ String SP (entry_name e ++ String NUL (entry_hash e)).

Fixpoint encodeEntries (es : list TreeEntry) : string :=
  match es with
  | [] => ""
  | e :: es' => encodeEntry e ++ encodeEntries es'
  end.

Definition wellFormed (e : TreeEntry) : Prop :=
  contains SP (entry_mode e) = false /\
  contains NUL (entry_name e) = false /\
  String.length (entry_hash e) = 20.

(** An entry as [treeTable] writes it: the mode of a file or of a directory,
    and a hash field of 40 hexadecimal characters. *)
Definition hexEntry (e : TreeEntry) : Prop :=
  (entry_mode e = "100644" \/ entry_mode e = "40000") /\
  contains NUL (entry_name e) = false /\
  exists data, entry_hash e = fmt.x (sha1.Sum data).

(** How [ReadTree] frames a table of such entries: it takes 20 characters of
    every hash field and reads the 20 that follow, [carry], as the start of
    the next mode; the last 20 are left over. *)
Fixpoint reframe (carry : string) (hs : list TreeEntry) : list TreeEntry * string :=
  match hs with
  | [] => ([], carry)
  | h :: hs' =>
      let '(es, tail) := reframe (drop 20 (entry_hash h)) hs' in
      (mkEntry (carry ++ entry_mode h) (entry_name h) (take 20 (entry_hash h)) :: es,
       tail)
  end.

(** What a reader has still to deliver. *)
Definition remaining (b : bufio.Reader) : nat :=
  String.length (bufio.buf b) + String.length (bufio.rd b).

(** Splits the conjunctions of a closed goal, without trying the parts by
    conversion. *)
Ltac conjuncts := repeat match goal with |- _ /\ _ => split end.

(** Settles closed equations by evaluation. *)
Ltac evaluate := vm_compute; reflexivity.

(** ** Vocabulary of the further properties *)



Module More.

(** A well-formed tree object, given by its entries. *)
Definition entries : list TreeEntry :=
  [ mkEntry "100644" "a.txt" (sha1.Sum ("blob 0" ++ String NUL ""));
    mkEntry "40000" "a" (sha1.Sum ("tree 0" ++ String NUL "")) ].

Definition frame : string := "tree " ++ "61" ++ String NUL (encodeEntries entries).

(** Two directories, [p] and [q], with the same contents. *)
Definition twins : world :=
  mkWorld (Dir [("p", Dir [("a", File "x"); ("d", Dir [("y", File "z")])]);
                ("q", Dir [("a", File "x"); ("d", Dir [("y", File "z")])])]) [].

(** A repository with a file, a directory and a [.git] that holds a file. *)
Definition project : world :=
  mkWorld (Dir [("repo", Dir [(".git", Dir [("HEAD", File "x")]);
                              ("a", File "x");
                              ("d", Dir [("y", File "z")])])]) [].

End More.

(** * Properties *)

(** ** Test vectors *)

Example sha1_abc : fmt.x (sha1.Sum "abc") = "a9993e364706816aba3e25717850c26c9cd0d89d".
Proof. vm_compute. reflexivity. Qed.

Example sha1_empty : fmt.x (sha1.Sum "") = "da39a3ee5e6b4b0d3255bfef95601890afd80709".
Proof. vm_compute. reflexivity. Qed.

Example sha1_two_blocks :
  fmt.x (sha1.Sum "abcdbcdecdefdefgefghfghighijhijkijkljklmklmnlmnomnopnopq")
  = "84983e441c3bd26ebaae4aa1f95129e5e54670f1".
Proof. vm_compute. reflexivity. Qed.

Example fmt_d_12 : fmt.d 12 = "12".
Proof. reflexivity. Qed.

Example fmt_d_0 : fmt.d 0 = "0".
Proof. reflexivity. Qed.

Example stored_roundtrip :
  zlib.inflateStored (zlib.deflateStored "tree 0") = Some "tree 0".
Proof. vm_compute. reflexivity. Qed.

Example stored_rejects_garbage : zlib.inflateStored "not a zlib stream" = None.
Proof. vm_compute. reflexivity. Qed.


(** ** Strings *)

Lemma take_drop (n : nat) (s : string) : take n s ++ drop n s = s.
Proof.
  revert s; induction n as [|n IH]; intros [|c s]; simpl; try reflexivity.
  now rewrite IH.
Qed.

Lemma take_length (s : string) : take (String.length s) s = s.
Proof. induction s as [|c s IH]; simpl; [reflexivity | now rewrite IH]. Qed.

Lemma drop_length (s : string) : drop (String.length s) s = "".
Proof. induction s as [|c s IH]; simpl; [reflexivity | exact IH]. Qed.

Lemma drop_app (a b : string) : drop (String.length a) (a ++ b) = b.
Proof. induction a as [|c a IH]; simpl; [now destruct b | exact IH]. Qed.

Lemma string_length_app (a b : string) :
  String.length (a ++ b) = String.length a + String.length b.
Proof. induction a as [|c a IH]; simpl; [reflexivity | now rewrite IH]. Qed.

Lemma string_app_empty_r (s : string) : s ++ "" = s.
Proof. induction s as [|c s IH]; simpl; [reflexivity | now rewrite IH]. Qed.

Lemma string_app_assoc (a b c : string) : (a ++ b) ++ c = a ++ b ++ c.
Proof. induction a as [|x a IH]; simpl; [reflexivity | now rewrite IH]. Qed.

Lemma contains_app (c : ascii) (a b : string) :
  contains c (a ++ b) = contains c a || contains c b.
Proof.
  induction a as [|x a IH]; simpl; [reflexivity|].
  now rewrite IH, orb_assoc.
Qed.

Lemma cut_app (delim : ascii) (a rest : string) :
  contains delim a = false ->
  cut delim (a ++ String delim rest) = Some (a ++ String delim "", rest).
Proof.
  induction a as [|c a IH]; simpl; intros H.
  - now rewrite Ascii.eqb_refl.
  - apply orb_false_iff in H as [Hc Ha].
    rewrite Hc, (IH Ha). reflexivity.
Qed.

Lemma cut_none (delim : ascii) (s : string) :
  contains delim s = false -> cut delim s = None.
Proof.
  induction s as [|c s IH]; simpl; intros H; [reflexivity|].
  apply orb_false_iff in H as [Hc Hs].
  now rewrite Hc, (IH Hs).
Qed.

Lemma Split_app (sep : ascii) (a rest : string) :
  contains sep a = false ->
  strings.Split (a ++ String sep rest) sep = a :: strings.Split rest sep.
Proof.
  induction a as [|c a IH]; simpl; intros H.
  - now rewrite Ascii.eqb_refl.
  - apply orb_false_iff in H as [Hc Ha].
    rewrite Hc, (IH Ha). reflexivity.
Qed.

Lemma Split_none (sep : ascii) (s : string) :
  contains sep s = false -> strings.Split s sep = [s].
Proof.
  induction s as [|c s IH]; simpl; intros H; [reflexivity|].
  apply orb_false_iff in H as [Hc Hs].
  now rewrite Hc, (IH Hs).
Qed.

(** A string with the byte [c] in it splits around the first one. *)
Lemma contains_split (c : ascii) (s : string) :
  contains c s = true ->
  exists a rest, s = a ++ String c rest /\ contains c a = false.
Proof.
  induction s as [|x s IH]; simpl; intros H; [discriminate|].
  destruct (Ascii.eqb x c) eqn:E.
  - apply Ascii.eqb_eq in E; subst x. now exists "", s.
  - destruct (IH H) as (a & rest & -> & Ha).
    exists (String x a), rest. simpl. now rewrite E, Ha.
Qed.

(** ** Decimal and hexadecimal text *)

Lemma string_of_uint_no (c : ascii) (u : Decimal.uint) :
  contains c "0123456789" = false ->
  contains c (NilEmpty.string_of_uint u) = false.
Proof.
  intros H; induction u; simpl; trivial;
    rewrite IHu, orb_false_r;
    simpl in H; repeat (apply orb_false_iff in H as [? H]); assumption.
Qed.

Lemma fmt_d_no (c : ascii) (n : nat) :
  contains c "0123456789" = false -> contains c (fmt.d n) = false.
Proof.
  intros H. unfold fmt.d, NilZero.string_of_uint.
  destruct (Nat.to_uint n) eqn:E; try (apply string_of_uint_no; assumption).
  simpl in *. repeat (apply orb_false_iff in H as [? H]). now rewrite orb_false_r.
Qed.

Lemma fmt_x_length (bs : string) :
  String.length (fmt.x bs) = 2 * String.length bs.
Proof. induction bs as [|c bs IH]; simpl; [reflexivity | rewrite IH; lia]. Qed.

Lemma sha1_Sum_length (data : string) : String.length (sha1.Sum data) = 20.
Proof.
  unfold sha1.Sum.
  destruct (sha1.blocks _ _ _) as [[[[h0 h1] h2] h3] h4].
  reflexivity.
Qed.

(** An object hash has 40 characters. *)
Lemma hash_length (data : string) : String.length (fmt.x (sha1.Sum data)) = 40.
Proof. now rewrite fmt_x_length, sha1_Sum_length. Qed.

(** ** The file system *)

(** Induction on a file tree, with the hypothesis for every entry of a
    directory. *)
Lemma node_induction (P : node -> Prop) :
  (forall data, P (File data)) ->
  (forall es, Forall (fun e => P (snd e)) es -> P (Dir es)) ->
  forall n, P n.
Proof.
  intros HF HD.
  fix IH 1.
  intros [data | es].
  - apply HF.
  - apply HD.
    induction es as [|[k v] es IHes]; constructor.
    + apply IH.
    + exact IHes.
Qed.

Lemma lookup_insert_entry (name : string) (n : node) (es : list (string * node)) :
  lookup_entry name (insert_entry name n es) = Some n.
Proof.
  induction es as [|[k v] es IH]; simpl.
  - now rewrite String.eqb_refl.
  - destruct (String.compare name k) eqn:C; simpl.
    + now rewrite String.eqb_refl.
    + now rewrite String.eqb_refl.
    + destruct (String.eqb name k) eqn:E; [|exact IH].
      apply String.eqb_eq in E; subst k.
      pose proof (String.compare_antisym name name) as A.
      rewrite C in A. discriminate A.
Qed.

Lemma lookup_insert_entry_other (name k : string) (n : node)
    (es : list (string * node)) :
  k <> name -> lookup_entry k (insert_entry name n es) = lookup_entry k es.
Proof.
  intros Hk.
  assert (Hkn : String.eqb k name = false) by now apply String.eqb_neq.
  induction es as [|[k' v] es IH]; simpl.
  - now rewrite Hkn.
  - destruct (String.compare name k') eqn:C; simpl.
    + apply String.compare_eq_iff in C; subst k'. now rewrite Hkn.
    + now rewrite Hkn.
    + now rewrite IH.
Qed.


Lemma is_prefix_nil (q : pathname) : is_prefix [] q.
Proof. now exists q. Qed.

Lemma is_prefix_cons (x : string) (p q : pathname) :
  is_prefix p q -> is_prefix (x :: p) (x :: q).
Proof. intros [s ->]. now exists s. Qed.

(** A file that has been written is there with what was written. *)
Lemma writeFile_lookup (p : pathname) (data : string) :
  forall n n', writeFile p data n = Some n' -> lookup p n' = Some (File data).
Proof.
  induction p as [|name p IH]; intros n n' H; simpl in H.
  - destruct n; [|discriminate]. now inversion H.
  - destruct n as [|es]; [discriminate|].
    destruct (lookup_entry name es) as [c|] eqn:L.
    + destruct (writeFile p data c) as [c'|] eqn:W; [|discriminate].
      inversion H; subst n'. simpl. rewrite lookup_insert_entry. eauto.
    + destruct p; [|discriminate].
      inversion H; subst n'. simpl. now rewrite lookup_insert_entry.
Qed.

(** Writing a file changes nothing off the way to it. *)
Lemma writeFile_lookup_other (q : pathname) (data : string) :
  forall n n' p,
    writeFile q data n = Some n' -> ~ is_prefix p q -> lookup p n' = lookup p n.
Proof.
  induction q as [|name q IH]; intros n n' p H Hp; simpl in H.
  - destruct p; [destruct Hp; apply is_prefix_nil|].
    destruct n; [|discriminate]. now inversion H.
  - destruct p as [|k p]; [destruct Hp; apply is_prefix_nil|].
    destruct n as [|es]; [discriminate|].
    destruct (String.eqb k name) eqn:E.
    + apply String.eqb_eq in E; subst k.
      assert (Hp' : ~ is_prefix p q) by (intro; apply Hp; now apply is_prefix_cons).
      destruct (lookup_entry name es) as [c|] eqn:L.
      * destruct (writeFile q data c) as [c'|] eqn:W; [|discriminate].
        inversion H; subst n'. simpl. rewrite lookup_insert_entry, L. eauto.
      * destruct q; [|discriminate].
        inversion H; subst n'. simpl. rewrite lookup_insert_entry, L.
        destruct p; [destruct Hp'; apply is_prefix_nil | reflexivity].
    + apply String.eqb_neq in E.
      destruct (lookup_entry name es) as [c|] eqn:L.
      * destruct (writeFile q data c) as [c'|]; [|discriminate].
        inversion H; subst n'. simpl. now rewrite lookup_insert_entry_other.
      * destruct q; [|discriminate].
        inversion H; subst n'. simpl. now rewrite lookup_insert_entry_other.
Qed.

(** Creating directories changes nothing off the way to them. *)
Lemma mkdirAll_lookup_other (d : pathname) :
  forall n n' p,
    mkdirAll d n = Some n' -> ~ is_prefix p d -> lookup p n' = lookup p n.
Proof.
  induction d as [|name d IH]; intros n n' p H Hp; simpl in H.
  - destruct n; [discriminate|]. now inversion H.
  - destruct n as [|es]; [discriminate|].
    destruct p as [|k p]; [destruct Hp; apply is_prefix_nil|].
    destruct (mkdirAll d _) as [c'|] eqn:Mk; [|discriminate].
    inversion H; subst n'. simpl.
    destruct (String.eqb k name) eqn:E.
    + apply String.eqb_eq in E; subst k.
      assert (Hp' : ~ is_prefix p d) by (intro; apply Hp; now apply is_prefix_cons).
      rewrite lookup_insert_entry, (IH _ _ _ Mk Hp').
      destruct (lookup_entry name es); [reflexivity|].
      destruct p; [destruct Hp'; apply is_prefix_nil | reflexivity].
    + apply String.eqb_neq in E. now rewrite lookup_insert_entry_other.
Qed.

Lemma is_prefix_app_inv (base a b : pathname) :
  is_prefix (base ++ a)%list (base ++ b)%list -> is_prefix a b.
Proof.
  intros [s Hs]. exists s.
  rewrite <- List.app_assoc in Hs. now apply List.app_inv_head in Hs.
Qed.

Lemma is_prefix_length (p q : pathname) :
  is_prefix p q -> List.length p <= List.length q.
Proof. intros [s ->]. rewrite List.length_app. lia. Qed.

Lemma is_prefix_same_length (p q : pathname) :
  is_prefix p q -> List.length p = List.length q -> p = q.
Proof.
  intros [s ->] H. rewrite List.length_app in H.
  destruct s; [now rewrite List.app_nil_r | simpl in H; lia].
Qed.

Lemma objectPath_Join (r : git.Repository) (hash : string) :
  path.Join (path.Join (git.root r) [".git"; "objects"; take 2 hash]) [drop 2 hash]
  = git.objectPath r hash.
Proof.
  unfold git.objectPath, path.Join. now rewrite <- List.app_assoc.
Qed.

(** Distinct hashes name distinct objects, neither on the way to the other. *)
Lemma objectPath_not_prefix (r : git.Repository) (hash hash' : string) :
  hash' <> hash -> ~ is_prefix (git.objectPath r hash') (git.objectPath r hash).
Proof.
  intros Hne Hp. apply Hne.
  apply is_prefix_app_inv in Hp.
  apply is_prefix_same_length in Hp; [|reflexivity].
  assert (Ht : take 2 hash' = take 2 hash) by congruence.
  assert (Hd : drop 2 hash' = drop 2 hash) by congruence.
  now rewrite <- (take_drop 2 hash'), <- (take_drop 2 hash), Ht, Hd.
Qed.

Lemma objectPath_not_prefix_dir (r : git.Repository) (hash hash' : string) :
  ~ is_prefix (git.objectPath r hash')
      (path.Join (git.root r) [".git"; "objects"; take 2 hash]).
Proof.
  intros Hp. apply is_prefix_app_inv, is_prefix_length in Hp. simpl in Hp. lia.
Qed.

(** ** Calls that only read *)


Lemma keeps_ret {A : Type} (a : A) : keeps_tree (ret a).
Proof. now intros w. Qed.

Lemma keeps_lift {A : Type} (r : result A) : keeps_tree (lift r).
Proof. now intros w. Qed.

Lemma keeps_bind {A B : Type} (m : M A) (k : A -> M B) :
  keeps_tree m -> (forall a, keeps_tree (k a)) -> keeps_tree (bind m k).
Proof.
  intros Hm Hk w. unfold bind. specialize (Hm w).
  destruct (m w) as [[a|e|msg] w']; simpl in *; trivial.
  now rewrite Hk.
Qed.

Lemma keeps_onErr {A : Type} (m : M A) (f : error -> error) :
  keeps_tree m -> keeps_tree (onErr m f).
Proof.
  intros Hm w. unfold onErr. specialize (Hm w).
  now destruct (m w) as [[a|e|msg] w'].
Qed.

Lemma keeps_DirFSAt (dirname : pathname) (entries : list (string * node))
    (name : string) :
  keeps_tree (git.DirFSAt dirname entries name).
Proof. intros w. unfold git.DirFSAt. now destruct (lookup_entry name entries). Qed.

Lemma keeps_hashBlob (fsys : git.FS) (filename : string) :
  keeps_tree (fsys filename) -> keeps_tree (git.hashBlob fsys filename).
Proof.
  intros H. unfold git.hashBlob.
  apply keeps_bind; [now apply keeps_onErr|]. intros file.
  apply keeps_bind; [apply keeps_onErr, keeps_lift|]. intros fBuf.
  apply keeps_ret.
Qed.

Lemma keeps_rangeEntries (rec : pathname -> node -> M string)
    (dirname : pathname) (dirEntries : list (string * node)) :
  forall es table,
    Forall (fun e => forall d, keeps_tree (rec d (snd e))) es ->
    keeps_tree (git.rangeEntries rec dirname dirEntries es table).
Proof.
  induction es as [|[name dirEntry] es IH]; intros table HF; simpl.
  - apply keeps_ret.
  - inversion HF as [|? ? Hrec HF']; subst. simpl in Hrec.
    destruct dirEntry as [data|sub].
    + apply keeps_bind.
      * apply keeps_onErr, keeps_hashBlob, keeps_DirFSAt.
      * intros [hash blob]. now apply IH.
    + destruct (String.eqb name ".git"); [now apply IH|].
      apply keeps_bind; [apply keeps_onErr, Hrec|].
      intros subHash. now apply IH.
Qed.

Lemma keeps_treeTable (dir : node) :
  forall dirname, keeps_tree (git.treeTable dirname dir).
Proof.
  induction dir as [data|es IH] using node_induction; intros dirname w; simpl.
  - reflexivity.
  - now rewrite keeps_rangeEntries.
Qed.

Lemma keeps_treeTableAt (dirname : pathname) :
  keeps_tree (git.treeTableAt dirname).
Proof.
  intros w. unfold git.treeTableAt.
  destruct (lookup dirname (tree w)); [apply keeps_treeTable | reflexivity].
Qed.

(** ** Storing an object *)

Lemma is_prefix_trans (p q s : pathname) :
  is_prefix p q -> is_prefix q s -> is_prefix p s.
Proof.
  intros [a ->] [b ->]. exists (a ++ b)%list. now rewrite List.app_assoc.
Qed.

Lemma objects_dir_prefix (r : git.Repository) (hash : string) :
  is_prefix (path.Join (git.root r) [".git"; "objects"; take 2 hash])
    (git.objectPath r hash).
Proof. exists [drop 2 hash]. now rewrite <- objectPath_Join. Qed.

(** The steps that [WriteBlob] and [WriteTree] share: the directory of the
    object is made, its file created and the compressed bytes written.
    When they succeed the object is in the store, and nothing has changed
    off the way to it. *)
Lemma store_object (z : zlib.Codec) (r : git.Repository) (hash output : string)
    (f1 f2 f3 : error -> error) (w w1 : world) (h : string) :
  (let dirPath := path.Join (git.root r) [".git"; "objects"; take 2 hash] in
   onErr (os.MkdirAll dirPath) f1 ;;;
   file <- onErr (os.Create (path.Join dirPath [drop 2 hash])) f2 ;;
   onErr (zlib.Write z file output) f3 ;;;
   ret hash) w = (Ok h, w1) ->
  h = hash /\
  lookup (git.objectPath r hash) (tree w1) = Some (File (zlib.deflate z output)) /\
  forall p, ~ is_prefix p (git.objectPath r hash) ->
            lookup p (tree w1) = lookup p (tree w).
Proof.
  cbv zeta. unfold bind, onErr, os.MkdirAll, os.Create, zlib.Write, os.Write, ret.
  rewrite objectPath_Join. simpl.
  destruct (mkdirAll _ (tree w)) as [t1|] eqn:Mk; [simpl|discriminate].
  destruct (writeFile _ "" t1) as [t2|] eqn:Cr; [simpl|discriminate].
  destruct (writeFile _ _ t2) as [t3|] eqn:Wr; [simpl|discriminate].
  intros H; inversion H; subst h w1; simpl.
  split; [reflexivity|]. split.
  - eapply writeFile_lookup; eassumption.
  - intros p Hp.
    rewrite (writeFile_lookup_other _ _ _ _ _ Wr Hp).
    rewrite (writeFile_lookup_other _ _ _ _ _ Cr Hp).
    apply (mkdirAll_lookup_other _ _ _ _ Mk).
    intros Hd. apply Hp. eapply is_prefix_trans; [exact Hd|].
    apply objects_dir_prefix.
Qed.

(** ** Hash validation *)

(** C3. A hash whose length is not 40 is rejected by [CatFile] and by
    [ReadTree] with an error that wraps [ErrInvalidHash]; the world comes
    back as it was, trace included: no call has reached the file system. *)
Theorem invalid_hash_rejected (z : zlib.Codec) (r : git.Repository)
    (hash : string) (w : world) :
  String.length hash <> 40 ->
  exists e,
    errors.Is e ErrInvalidHash = true /\
    git.CatFile z r hash w = (Err e, w) /\
    git.ReadTree z r hash w = (Err e, w).
Proof.
  intros H. apply Nat.eqb_neq in H.
  exists (Wrapf "%w expected 40 characters, got: %d"
            [fmt.d (String.length hash)] ErrInvalidHash).
  unfold git.CatFile, git.ReadTree. rewrite H. simpl.
  repeat split; reflexivity.
Qed.

(** ** Initialisation *)

(** C8. After an [Init] that succeeded, [Init] on the same handle returns
    [ErrRepositoryAlreadyInitialized] and the world as it was (the tree and
    the trace): the HEAD file that the first call wrote is still there. *)
Theorem Init_twice (r r1 : git.Repository) (w w1 : world) (c : M unit) :
  git.Init r w = ((c, Ok tt), r1, w1) ->
  git.Init r1 w1
  = ((git.cleanup r1, Err ErrRepositoryAlreadyInitialized), r1, w1) /\
  lookup (path.Join (git.root r1) [".git"; "HEAD"]) (tree w1)
  = Some (File ("ref: refs/heads/master" ++ String LF "")).
Proof.
  unfold git.Init at 1.
  destruct (git.initialized r) eqn:I; [discriminate|].
  unfold bind at 1.
  destruct (git.mkdirs _ w) as [[[]|e|msg] w'] eqn:Mk;
    [|intros H; inversion H ..].
  unfold onErr, os.WriteFile. simpl.
  destruct (writeFile _ _ (tree w')) as [t|] eqn:Wr; [|discriminate].
  intros H; inversion H; subst. simpl. split.
  - reflexivity.
  - eapply writeFile_lookup. exact Wr.
Qed.

(** ** Writing a tree *)



(** C6, as amended.  When [WriteTree] succeeds, the tree object of the
    directory itself is in the store under the returned hash, and the store
    holds no other new object: what the entries refer to has been hashed,
    not written. *)
Theorem WriteTree_persists_the_tree_only (z : zlib.Codec) (r : git.Repository)
    (dirname : pathname) (w w1 : world) (h : string) :
  git.WriteTree z r dirname w = (Ok h, w1) ->
  exists table,
    fst (git.treeTableAt dirname w) = Ok table /\
    h = fmt.x (sha1.Sum (treeFrame table)) /\
    lookup (git.objectPath r h) (tree w1)
    = Some (File (zlib.deflate z (treeFrame table))) /\
    forall hash', hash' <> h ->
      lookup (git.objectPath r hash') (tree w1)
      = lookup (git.objectPath r hash') (tree w).
Proof.
  unfold git.WriteTree. unfold bind at 1. unfold onErr at 1.
  pose proof (keeps_treeTableAt dirname w) as K.
  destruct (git.treeTableAt dirname w) as [[table|e|msg] w'] eqn:T;
    try discriminate.
  simpl in K. intros H.
  apply store_object in H as (-> & Hl & Ho).
  exists table. repeat split; trivial.
  intros hash' Hne. rewrite <- K. apply Ho.
  now apply objectPath_not_prefix.
Qed.

(** ** Reading an object back *)

(** What [CatFile] returns on a stored blob: the payload up to its first
    null byte. *)
Lemma blobFrame_eq (payload : string) :
  blobFrame payload
  = ("blob " ++ fmt.d (String.length payload)) ++ String NUL payload.
Proof. unfold blobFrame. rewrite !string_app_assoc. reflexivity. Qed.

Lemma Split_blobFrame (payload : string) :
  strings.Split (blobFrame payload) NUL
  = ("blob " ++ fmt.d (String.length payload)) :: strings.Split payload NUL.
Proof.
  rewrite blobFrame_eq. apply Split_app.
  rewrite contains_app. simpl. now apply fmt_d_no.
Qed.

Lemma CatFile_stored (z : zlib.Codec) (r : git.Repository) (hash : string)
    (w : world) (c frame : string) :
  String.length hash = 40 ->
  lookup (git.objectPath r hash) (tree w) = Some (File c) ->
  zlib.inflate z c = Some frame ->
  fst (git.CatFile z r hash w) = index (strings.Split frame NUL) 1.
Proof.
  intros Hlen Hfile Hz. unfold git.CatFile.
  rewrite Hlen. simpl.
  unfold bind, onErr, os.Open, lift, zlib.NewReader. simpl.
  rewrite Hfile. simpl. rewrite Hz. reflexivity.
Qed.

(** C10. On a stored blob [CatFile] returns the bytes between the first and
    the second null byte of the framed object: the whole payload when it has
    no null byte, and otherwise the part of the payload before its first
    null byte, a strict prefix. *)
Theorem CatFile_until_null (z : zlib.Codec) (r : git.Repository) (hash : string)
    (w : world) (c payload : string) :
  String.length hash = 40 ->
  lookup (git.objectPath r hash) (tree w) = Some (File c) ->
  zlib.inflate z c = Some (blobFrame payload) ->
  exists out,
    fst (git.CatFile z r hash w) = Ok out /\
    contains NUL out = false /\
    (contains NUL payload = false -> out = payload) /\
    (contains NUL payload = true ->
     exists rest,
       payload = out ++ String NUL rest /\
       blobFrame payload
       = ("blob " ++ fmt.d (String.length payload)) ++ String NUL out
           ++ String NUL rest /\
       String.length out < String.length payload).
Proof.
  intros Hlen Hfile Hz.
  rewrite (CatFile_stored z r hash w c _ Hlen Hfile Hz), Split_blobFrame.
  destruct (contains NUL payload) eqn:N.
  - destruct (contains_split _ _ N) as (a & rest & -> & Ha).
    exists a. rewrite (Split_app _ _ _ Ha). repeat split; trivial.
    + discriminate.
    + intros _. exists rest. repeat split.
      * apply blobFrame_eq.
      * rewrite string_length_app. simpl. lia.
  - exists payload. rewrite (Split_none _ _ N). repeat split; trivial.
    discriminate.
Qed.

Lemma hashBlob_file (dir : pathname) (filename payload : string) (w : world) :
  lookup (path.Join dir [filename]) (tree w) = Some (File payload) ->
  git.hashBlob (git.DirFS dir) filename w
  = (Ok (fmt.x (sha1.Sum (blobFrame payload)), blobFrame payload),
     os.log (sys_Open (path.Join dir [filename])) w).
Proof.
  intros Hfile.
  unfold git.hashBlob, bind, onErr, git.DirFS, os.Open, lift, os.ReadAll, ret.
  simpl. rewrite Hfile. reflexivity.
Qed.

(** A file written as a blob is stored under the hash of its framed
    contents, and [CatFile] on that hash reads the frame back. *)
Lemma WriteBlob_then_CatFile (z : zlib.Codec) (r : git.Repository)
    (dir : pathname) (filename payload : string) (w w1 : world) (h : string) :
  lookup (path.Join dir [filename]) (tree w) = Some (File payload) ->
  zlib.inflate z (zlib.deflate z (blobFrame payload)) = Some (blobFrame payload) ->
  git.WriteBlob z r (git.DirFS dir) filename w = (Ok h, w1) ->
  h = fmt.x (sha1.Sum (blobFrame payload)) /\
  fst (git.CatFile z r h w1) = index (strings.Split (blobFrame payload) NUL) 1.
Proof.
  intros Hfile Hz. unfold git.WriteBlob. unfold bind at 1. unfold onErr at 1.
  rewrite (hashBlob_file _ _ _ _ Hfile).
  intros H. apply (store_object z r) in H as (-> & Hl & _).
  split; [reflexivity|].
  eapply CatFile_stored; [apply hash_length | exact Hl | exact Hz].
Qed.

(** ** The buffered reader *)

Lemma defaultBufSize_pos : (bufio.defaultBufSize <=? 0)%nat = false.
Proof. reflexivity. Qed.

Lemma fill_all (s : string) :
  String.length s <= bufio.defaultBufSize ->
  bufio.fill (bufio.mkReader "" s) = bufio.mkReader s "".
Proof.
  intros H. unfold bufio.fill. cbn [bufio.buf bufio.rd String.length].
  rewrite Nat.sub_0_r, Nat.min_r by exact H.
  now rewrite take_length, drop_length.
Qed.

Lemma readString_found (fuel : nat) (delim : ascii) (acc a rest rd : string) :
  contains delim a = false ->
  bufio.readString fuel delim acc (bufio.mkReader (a ++ String delim rest) rd)
  = ((acc ++ a ++ String delim "", None), bufio.mkReader rest rd).
Proof.
  intros H. destruct fuel; cbn [bufio.readString bufio.buf bufio.rd];
    now rewrite (cut_app _ _ _ H).
Qed.

(** With the delimiter in the buffer, [ReadString] reads through it. *)
Lemma ReadString_buffered (delim : ascii) (a rest rd : string) :
  contains delim a = false ->
  bufio.ReadString delim (bufio.mkReader (a ++ String delim rest) rd)
  = ((a ++ String delim "", None), bufio.mkReader rest rd).
Proof. intros H. unfold bufio.ReadString. now rewrite readString_found. Qed.

(** The first [ReadString] on an input that fits the buffer reads it whole
    into the buffer. *)
Lemma ReadString_first (delim : ascii) (a rest : string) :
  contains delim a = false ->
  String.length (a ++ String delim rest) <= bufio.defaultBufSize ->
  bufio.ReadString delim (bufio.NewReader (a ++ String delim rest))
  = ((a ++ String delim "", None), bufio.mkReader rest "").
Proof.
  intros H Hlen. unfold bufio.ReadString, bufio.NewReader.
  cbn [bufio.rd].
  destruct (a ++ String delim rest) as [|c s] eqn:E.
  - destruct a; discriminate.
  - cbn [String.length bufio.readString bufio.buf bufio.rd cut].
    rewrite defaultBufSize_pos.
    rewrite fill_all by exact Hlen.
    rewrite <- E. now rewrite readString_found.
Qed.

Lemma Peek1_buffered (c : ascii) (s rd : string) :
  bufio.Peek1 (bufio.mkReader (String c s) rd)
  = (None, bufio.mkReader (String c s) rd).
Proof. reflexivity. Qed.

Lemma Peek1_end : bufio.Peek1 (bufio.mkReader "" "") = (Some io_EOF, bufio.mkReader "" "").
Proof. reflexivity. Qed.

(** With at least [n] bytes in the buffer, [Read] takes [n]. *)
Lemma Read_buffered (n : nat) (h rest rd : string) :
  String.length h = n -> 0 < n ->
  bufio.Read n (bufio.mkReader (h ++ rest) rd) = ((n, None), bufio.mkReader rest rd).
Proof.
  intros Hn Hpos. unfold bufio.Read.
  destruct h as [|c h]; [simpl in Hn; lia|].
  cbn [append bufio.buf bufio.rd].
  change (String c (h ++ rest)) with (String c h ++ rest).
  rewrite string_length_app, Hn, Nat.min_l by lia.
  rewrite <- Hn at 2. now rewrite drop_app.
Qed.

(** With fewer than [n] bytes left in all, [Read] takes them without an
    error. *)
Lemma Read_short (n : nat) (c : ascii) (s : string) :
  String.length (String c s) < n ->
  bufio.Read n (bufio.mkReader (String c s) "")
  = ((String.length (String c s), None), bufio.mkReader "" "").
Proof.
  intros H. unfold bufio.Read. cbn [bufio.buf bufio.rd].
  rewrite Nat.min_r by lia. now rewrite drop_length.
Qed.

(** ** Parsing a tree *)


Lemma readEntries_step (fuel : nat) (br : bufio.Reader) (names : list string) :
  git.readEntries (S fuel) br names
  = let '(err, br) := bufio.Peek1 br in
    match err with
    | Some io_EOF => Ok names
    | Some e => Err (Wrapf "error peeking: %w" [] e)
    | None =>
        let '((_, err), br) := bufio.ReadString SP br in
        match err with
        | Some e => Err (Wrapf "error reading mode: %w" [] e)
        | None =>
            let '((name, err), br) := bufio.ReadString NUL br in
            match err with
            | Some e => Err (Wrapf "error reading name: %w" [] e)
            | None =>
                let names := (names ++ [hd "" (strings.Split name NUL)])%list in
                let '((_, err), br) := bufio.Read 20 br in
                match err with
                | Some e => Err (Wrapf "error reading hash: %w" [] e)
                | None => git.readEntries fuel br names
                end
            end
        end
    end.
Proof. reflexivity. Qed.

Lemma encodeEntry_app (e : TreeEntry) (rest : string) :
  encodeEntry e ++ rest
  = entry_mode e ++ String SP (entry_name e ++ String NUL (entry_hash e ++ rest)).
Proof.
  unfold encodeEntry. rewrite string_app_assoc. simpl.
  rewrite string_app_assoc. reflexivity.
Qed.

Lemma encodeEntry_nonempty (e : TreeEntry) (rest : string) :
  exists c s, encodeEntry e ++ rest = String c s.
Proof.
  rewrite encodeEntry_app. destruct (entry_mode e); simpl; eauto.
Qed.

(** The loop over well-formed entries that are in the buffer collects their
    names in the order in which they are stored, and goes on with what
    follows them. *)
Lemma readEntries_prefix (es : list TreeEntry) :
  forall fuel names tail rd,
    Forall wellFormed es ->
    git.readEntries (List.length es + fuel)
      (bufio.mkReader (encodeEntries es ++ tail) rd) names
    = git.readEntries fuel (bufio.mkReader tail rd) (names ++ map entry_name es)%list.
Proof.
  induction es as [|e es IH]; intros fuel names tail rd Hwf.
  - cbn [encodeEntries map List.length]. now rewrite List.app_nil_r.
  - inversion Hwf as [|? ? (Hm & Hn & Hh) Hwf']; subst.
    cbn [encodeEntries map List.length Nat.add].
    rewrite readEntries_step, string_app_assoc.
    destruct (encodeEntry_nonempty e (encodeEntries es ++ tail)) as (c & s & E).
    rewrite E, Peek1_buffered, <- E, encodeEntry_app.
    rewrite (ReadString_buffered _ _ _ _ Hm).
    rewrite (ReadString_buffered _ _ _ _ Hn).
    rewrite (Read_buffered 20 _ _ _ Hh) by lia.
    rewrite (Split_app _ _ _ Hn). cbn [hd].
    rewrite IH by trivial.
    now rewrite <- List.app_assoc.
Qed.

Lemma readEntries_buffered (es : list TreeEntry) (fuel : nat) (names : list string) :
  Forall wellFormed es ->
  List.length es < fuel ->
  git.readEntries fuel (bufio.mkReader (encodeEntries es) "") names
  = Ok (names ++ map entry_name es)%list.
Proof.
  intros Hwf Hfuel.
  replace fuel with (List.length es + S (fuel - S (List.length es))) by lia.
  rewrite <- (string_app_empty_r (encodeEntries es)).
  rewrite readEntries_prefix by trivial.
  now rewrite readEntries_step, Peek1_end.
Qed.

(** The last entry cut short inside its hash field, with some of the field
    left: its name is collected and the loop ends without an error. *)
Lemma readEntries_short_hash (es : list TreeEntry) (e : TreeEntry)
    (fuel : nat) (names : list string) :
  Forall wellFormed es ->
  contains SP (entry_mode e) = false ->
  contains NUL (entry_name e) = false ->
  0 < String.length (entry_hash e) < 20 ->
  List.length es + 1 < fuel ->
  git.readEntries fuel
    (bufio.mkReader (encodeEntries es ++ encodeEntry e) "") names
  = Ok (names ++ map entry_name es ++ [entry_name e])%list.
Proof.
  intros Hwf Hm Hn Hh Hfuel.
  replace fuel with (List.length es + S (S (fuel - S (S (List.length es))))) by lia.
  rewrite readEntries_prefix by trivial.
  rewrite readEntries_step.
  destruct (encodeEntry_nonempty e "") as (c & s & E).
  rewrite string_app_empty_r in E.
  rewrite E, Peek1_buffered, <- E. unfold encodeEntry.
  rewrite (ReadString_buffered _ _ _ _ Hm).
  rewrite (ReadString_buffered _ _ _ _ Hn).
  rewrite (Split_app _ _ _ Hn). cbn [hd].
  destruct (entry_hash e) as [|c' h'] eqn:Eh; [simpl in Hh; lia|].
  rewrite Read_short by lia.
  rewrite readEntries_step, Peek1_end.
  now rewrite <- List.app_assoc.
Qed.

(** The last entry cut right after the null byte of its name: the loop
    fails on the hash field. *)
Lemma readEntries_no_hash (es : list TreeEntry) (mode name : string)
    (fuel : nat) (names : list string) :
  Forall wellFormed es ->
  contains SP mode = false ->
  contains NUL name = false ->
  List.length es < fuel ->
  git.readEntries fuel
    (bufio.mkReader (encodeEntries es ++ mode ++ String SP (name ++ String NUL "")) "")
    names
  = Err (Wrapf "error reading hash: %w" [] io_EOF).
Proof.
  intros Hwf Hm Hn Hfuel.
  replace fuel with (List.length es + S (fuel - S (List.length es))) by lia.
  rewrite readEntries_prefix by trivial.
  rewrite readEntries_step.
  destruct mode as [|c s] eqn:E; cbn [append]; rewrite Peek1_buffered;
    [change (String SP (name ++ String NUL ""))
       with ("" ++ String SP (name ++ String NUL ""))
    |change (String c (s ++ String SP (name ++ String NUL "")))
       with (String c s ++ String SP (name ++ String NUL ""))];
    rewrite (ReadString_buffered _ _ _ _ Hm);
    rewrite (ReadString_buffered _ _ _ _ Hn);
    reflexivity.
Qed.

(** The header of a tree object that fits the buffer of the reader: the
    type is checked, the length field [len] is skipped, whatever it holds,
    and the loop starts on the payload. *)
Lemma parseTree_header (len payload : string) :
  contains NUL len = false ->
  String.length ("tree " ++ len ++ String NUL payload) <= bufio.defaultBufSize ->
  git.parseTree ("tree " ++ len ++ String NUL payload)
  = match git.readEntries
            (S (String.length ("tree " ++ len ++ String NUL payload)))
            (bufio.mkReader payload "") [] with
    | Ok names => Ok (strings.Join names (String LF "") ++ String LF "")
    | Err e => Err e
    | Panic msg => Panic msg
    end.
Proof.
  intros Hlen Hfit. unfold git.parseTree.
  change ("tree " ++ len ++ String NUL payload)
    with ("tree" ++ String SP (len ++ String NUL payload)) in *.
  rewrite (ReadString_first SP "tree" _ eq_refl Hfit).
  cbn [append String.eqb Ascii.eqb Bool.eqb negb].
  now rewrite (ReadString_buffered _ _ _ _ Hlen).
Qed.

Lemma encodeEntries_length (es : list TreeEntry) :
  List.length es <= String.length (encodeEntries es).
Proof.
  induction es as [|e es IH]; simpl; [lia|].
  unfold encodeEntry. rewrite !string_length_app. simpl. lia.
Qed.

Lemma frame_length (len payload : string) :
  String.length ("tree " ++ len ++ String NUL payload)
  = 6 + String.length len + String.length payload.
Proof. cbn [append String.length]. rewrite string_length_app. simpl. lia. Qed.

(** A well-formed tree object that fits the buffer of the reader is listed
    with the names in the order in which they are stored, whatever its
    length field [len] holds. *)
Lemma parseTree_listing (len : string) (es : list TreeEntry) :
  contains NUL len = false ->
  Forall wellFormed es ->
  String.length ("tree " ++ len ++ String NUL (encodeEntries es))
  <= bufio.defaultBufSize ->
  git.parseTree ("tree " ++ len ++ String NUL (encodeEntries es))
  = Ok (strings.Join (map entry_name es) (String LF "") ++ String LF "").
Proof.
  intros Hlen Hwf Hfit.
  rewrite (parseTree_header _ _ Hlen Hfit), readEntries_buffered; trivial.
  rewrite frame_length. pose proof (encodeEntries_length es). lia.
Qed.

(** The same object with its last entry cut short inside the hash field,
    some of the field being left, is listed without an error, the name of
    the cut entry included. *)
Lemma parseTree_short_hash (len : string) (es : list TreeEntry) (e : TreeEntry) :
  contains NUL len = false ->
  Forall wellFormed es ->
  contains SP (entry_mode e) = false ->
  contains NUL (entry_name e) = false ->
  0 < String.length (entry_hash e) < 20 ->
  String.length ("tree " ++ len ++ String NUL (encodeEntries es ++ encodeEntry e))
  <= bufio.defaultBufSize ->
  git.parseTree ("tree " ++ len ++ String NUL (encodeEntries es ++ encodeEntry e))
  = Ok (strings.Join (map entry_name es ++ [entry_name e]) (String LF "")
          ++ String LF "").
Proof.
  intros Hlen Hwf Hm Hn Hh Hfit.
  rewrite (parseTree_header _ _ Hlen Hfit), readEntries_short_hash; trivial.
  rewrite frame_length, string_length_app.
  pose proof (encodeEntries_length es).
  unfold encodeEntry. rewrite !string_length_app. simpl. lia.
Qed.

(** [ReadTree] on a stored object parses what the object decompresses to. *)
Lemma ReadTree_stored (z : zlib.Codec) (r : git.Repository) (hash : string)
    (w : world) (c frame : string) :
  String.length hash = 40 ->
  lookup (git.objectPath r hash) (tree w) = Some (File c) ->
  zlib.inflate z c = Some frame ->
  fst (git.ReadTree z r hash w) = git.parseTree frame.
Proof.
  intros Hlen Hfile Hz. unfold git.ReadTree.
  rewrite Hlen. simpl.
  unfold bind, onErr, os.Open, lift, zlib.NewReader. simpl.
  rewrite Hfile. simpl. rewrite Hz. reflexivity.
Qed.

(** ** The loop of [ReadTree] ends *)


Lemma fill_remaining (b : bufio.Reader) : remaining (bufio.fill b) = remaining b.
Proof.
  unfold remaining, bufio.fill. cbn [bufio.buf bufio.rd].
  set (n := Nat.min _ _).
  rewrite string_length_app.
  rewrite <- (take_drop n (bufio.rd b)) at 3.
  rewrite string_length_app. lia.
Qed.

Lemma cut_length (delim : ascii) (s line rest : string) :
  cut delim s = Some (line, rest) ->
  String.length s = String.length line + String.length rest /\
  0 < String.length line.
Proof.
  revert line rest. induction s as [|c s IH]; simpl; intros line rest H.
  - discriminate.
  - destruct (Ascii.eqb c delim).
    + inversion H; subst. simpl. lia.
    + destruct (cut delim s) as [[l r]|]; [|discriminate].
      inversion H; subst. destruct (IH _ _ eq_refl). simpl. lia.
Qed.

(** A [ReadString] without an error has consumed input. *)
Lemma readString_consumes (fuel : nat) (delim : ascii) :
  forall acc b line b',
    bufio.readString fuel delim acc b = ((line, None), b') ->
    remaining b' < remaining b.
Proof.
  induction fuel as [|fuel IH]; intros acc b line b';
    cbn [bufio.readString];
    destruct (cut delim (bufio.buf b)) as [[l rest]|] eqn:C.
  - intros H; inversion H; subst. unfold remaining; cbn [bufio.buf bufio.rd].
    destruct (cut_length _ _ _ _ C). lia.
  - discriminate.
  - intros H; inversion H; subst. unfold remaining; cbn [bufio.buf bufio.rd].
    destruct (cut_length _ _ _ _ C). lia.
  - destruct (bufio.rd b) eqn:R; [discriminate|].
    destruct (bufio.defaultBufSize <=? String.length (bufio.buf b))%nat;
      intros H; apply IH in H; rewrite fill_remaining in H.
    + unfold remaining in *. cbn [bufio.buf bufio.rd String.length] in *.
      rewrite R. cbn [String.length]. lia.
    + exact H.
Qed.

Lemma Peek1_remaining (b : bufio.Reader) :
  remaining (snd (bufio.Peek1 b)) = remaining b.
Proof.
  unfold bufio.Peek1.
  assert (E : remaining (match bufio.buf b with
                         | "" => bufio.fill b
                         | String _ _ => b
                         end) = remaining b)
    by (destruct (bufio.buf b); [apply fill_remaining | reflexivity]).
  destruct (bufio.buf (match bufio.buf b with
                       | "" => bufio.fill b
                       | String _ _ => b
                       end)); exact E.
Qed.

Lemma Read_remaining (n : nat) (b : bufio.Reader) :
  remaining (snd (bufio.Read n b)) <= remaining b.
Proof.
  unfold bufio.Read.
  set (b1 := match bufio.buf b with "" => bufio.fill b | String _ _ => b end).
  assert (E : remaining b1 = remaining b)
    by (subst b1; destruct (bufio.buf b); [apply fill_remaining | reflexivity]).
  destruct (bufio.buf b1) eqn:B; cbn [snd]; [lia|].
  unfold remaining in *. cbn [bufio.buf bufio.rd]. rewrite B in E.
  set (k := Nat.min _ _).
  rewrite <- (take_drop k (String a s)), string_length_app in E. lia.
Qed.

(** With more fuel than input the loop never runs out of fuel. *)
Lemma readEntries_enough_fuel (fuel : nat) :
  forall br names msg,
    remaining br < fuel -> git.readEntries fuel br names <> Panic msg.
Proof.
  induction fuel as [|fuel IH]; intros br names msg Hfuel; [lia|].
  rewrite readEntries_step.
  pose proof (Peek1_remaining br) as HP.
  destruct (bufio.Peek1 br) as [[e|] br1]; cbn [snd] in HP.
  - destruct e; discriminate.
  - unfold bufio.ReadString at 1.
    destruct (bufio.readString _ SP "" br1) as [[mode [e|]] br2] eqn:R1;
      [discriminate|].
    apply readString_consumes in R1.
    unfold bufio.ReadString at 1.
    destruct (bufio.readString _ NUL "" br2) as [[name [e|]] br3] eqn:R2;
      [discriminate|].
    apply readString_consumes in R2.
    pose proof (Read_remaining 20 br3) as R3.
    destruct (bufio.Read 20 br3) as [[k [e|]] br4]; [discriminate|].
    cbn [snd] in R3. apply IH. lia.
Qed.

(** [parseTree] returns names or an error on every input. *)
Lemma parseTree_total (reader : string) :
  (exists out, git.parseTree reader = Ok out) \/
  (exists e, git.parseTree reader = Err e).
Proof.
  destruct (git.parseTree reader) as [out|e|msg] eqn:P; [eauto | eauto | exfalso].
  revert P. unfold git.parseTree.
  unfold bufio.ReadString at 1.
  destruct (bufio.readString _ SP "" _) as [[typ [e|]] br1] eqn:R1;
    cbn beta iota zeta; [discriminate|].
  apply readString_consumes in R1.
  destruct (negb (typ =? "tree ")%string); [discriminate|].
  unfold bufio.ReadString at 1.
  destruct (bufio.readString _ NUL "" br1) as [[len [e|]] br2] eqn:R2;
    cbn beta iota zeta; [discriminate|].
  apply readString_consumes in R2.
  destruct (git.readEntries _ br2 []) as [names|e|msg'] eqn:L; try discriminate.
  intros _. revert L. apply readEntries_enough_fuel.
  unfold remaining in *. cbn [bufio.buf bufio.rd bufio.NewReader String.length] in *.
  lia.
Qed.

(** * The claims on sample repositories *)


(** ** Hash validation and initialisation *)

(** The hash [123] of the tests. *)
Lemma invalid_hash_rejected_witness :
  String.length "123" <> 40 /\
  exists e,
    errors.Is e ErrInvalidHash = true /\
    git.CatFile Sample.z Sample.repo "123" Sample.oneFile = (Err e, Sample.oneFile) /\
    git.ReadTree Sample.z Sample.repo "123" Sample.oneFile = (Err e, Sample.oneFile).
Proof.
  split; [simpl; lia|].
  apply (invalid_hash_rejected Sample.z Sample.repo "123" Sample.oneFile).
  simpl; lia.
Defined.

(** [Init] twice on a fresh handle for [repo]. *)
Lemma Init_twice_witness :
  let r1 := git.mkRepository ["repo"] true in
  let w1 := snd (git.Init Sample.repo Sample.oneFile) in
  git.Init Sample.repo Sample.oneFile = ((git.cleanup Sample.repo, Ok tt), r1, w1) /\
  git.Init r1 w1 = ((git.cleanup r1, Err ErrRepositoryAlreadyInitialized), r1, w1) /\
  lookup ["repo"; ".git"; "HEAD"] (tree w1)
  = Some (File ("ref: refs/heads/master" ++ String LF "")).
Proof.
  cbv zeta. split; [reflexivity|].
  apply (Init_twice Sample.repo (git.mkRepository ["repo"] true) Sample.oneFile
           (snd (git.Init Sample.repo Sample.oneFile)) (git.cleanup Sample.repo)).
  reflexivity.
Defined.

(** ** Blobs *)

(** C9, as amended.  A file holding the 12 bytes [test content], written as
    a blob, is read back unchanged by the returned hash, and that hash, the
    digest of the frame [blob 12\0test content], is
    [08cf6101416f0ce0dda3c80e627f333854c4085c]. *)
Theorem test_content_roundtrip (z : zlib.Codec) (r : git.Repository)
    (dir : pathname) (filename : string) (w w1 : world) (h : string) :
  lookup (path.Join dir [filename]) (tree w) = Some (File "test content") ->
  zlib.inflate z (zlib.deflate z (blobFrame "test content"))
  = Some (blobFrame "test content") ->
  git.WriteBlob z r (git.DirFS dir) filename w = (Ok h, w1) ->
  fst (git.CatFile z r h w1) = Ok "test content" /\
  h = fmt.x (sha1.Sum ("blob 12" ++ String NUL "test content")) /\
  h = "08cf6101416f0ce0dda3c80e627f333854c4085c".
Proof.
  intros Hfile Hz H.
  destruct (WriteBlob_then_CatFile _ _ _ _ _ _ _ _ Hfile Hz H) as [-> Hcat].
  rewrite Hcat. conjuncts; evaluate.
Qed.

(** [repo/test.txt] written as a blob and read back. *)
Lemma test_content_roundtrip_witness :
  let h := "08cf6101416f0ce0dda3c80e627f333854c4085c" in
  let w1 := snd (git.WriteBlob Sample.z Sample.repo (git.DirFS ["repo"])
                   "test.txt" Sample.testFile) in
  git.WriteBlob Sample.z Sample.repo (git.DirFS ["repo"]) "test.txt" Sample.testFile
  = (Ok h, w1) /\
  fst (git.CatFile Sample.z Sample.repo h w1) = Ok "test content".
Proof.
  cbv zeta.
  assert (Hw : git.WriteBlob Sample.z Sample.repo (git.DirFS ["repo"]) "test.txt"
                 Sample.testFile
               = (Ok "08cf6101416f0ce0dda3c80e627f333854c4085c",
                  snd (git.WriteBlob Sample.z Sample.repo (git.DirFS ["repo"])
                         "test.txt" Sample.testFile)))
    by (vm_compute; reflexivity).
  split; [exact Hw|].
  refine (proj1 (test_content_roundtrip Sample.z Sample.repo ["repo"] "test.txt"
                   Sample.testFile _ _ _ _ Hw)).
  - reflexivity.
  - vm_compute; reflexivity.
Defined.

(** C9, as stated, fails: the hash returned for [test content] is not the
    39-character string of the claim. *)
Lemma test_content_hash_differs :
  ~ (fst (git.WriteBlob Sample.z Sample.repo (git.DirFS ["repo"]) "test.txt"
            Sample.testFile)
     = Ok "d670460b4b4aece5915caf5c68d12f560a9fe30").
Proof. vm_compute. discriminate. Qed.

(** [repo/bin.dat], which holds [ab\0cd], written as a blob and read
    back: [CatFile] returns [ab]. *)
Lemma CatFile_until_null_witness :
  let hash := "735a95829dd77133742c0416d45e0e0de7153ef6" in
  let w := snd (git.WriteBlob Sample.z Sample.repo (git.DirFS ["repo"])
                  "bin.dat" Sample.binFile) in
  let payload := "ab" ++ String NUL "cd" in
  exists out,
    fst (git.CatFile Sample.z Sample.repo hash w) = Ok out /\
    contains NUL out = false /\
    (contains NUL payload = false -> out = payload) /\
    (contains NUL payload = true ->
     exists rest,
       payload = out ++ String NUL rest /\
       blobFrame payload
       = ("blob " ++ fmt.d (String.length payload)) ++ String NUL out
           ++ String NUL rest /\
       String.length out < String.length payload).
Proof.
  cbv zeta.
  apply (CatFile_until_null Sample.z Sample.repo _ _
           (zlib.deflateStored (blobFrame ("ab" ++ String NUL "cd")))).
  - reflexivity.
  - vm_compute; reflexivity.
  - vm_compute; reflexivity.
Defined.

Example CatFile_bin_dat :
  fst (git.CatFile Sample.z Sample.repo "735a95829dd77133742c0416d45e0e0de7153ef6"
         (snd (git.WriteBlob Sample.z Sample.repo (git.DirFS ["repo"])
                 "bin.dat" Sample.binFile)))
  = Ok "ab".
Proof. vm_compute. reflexivity. Qed.

(** ** Tree entries *)

(** C4, on the code.  For the directory [repo] that holds the empty file [a]
    the table is [100644 a\0] followed by the 40 hexadecimal characters of
    the hash of the blob, not by the 20 bytes of the digest; for [repo] with
    the directory [d] (and [.git], which is skipped) it is [40000 d\0]
    followed by 40 hexadecimal characters. *)
Theorem treeTable_hash_field_is_hex :
  fst (git.treeTableAt ["repo"] Sample.oneFile)
  = Ok ("100644 a" ++ String NUL (fmt.x (sha1.Sum ("blob 0" ++ String NUL "")))) /\
  fmt.x (sha1.Sum ("blob 0" ++ String NUL ""))
  = "e69de29bb2d1d6434b8b29ae775ad8c2e48c5391" /\
  fst (git.treeTableAt ["repo"] Sample.oneFile)
  <> Ok ("100644 a" ++ String NUL (sha1.Sum ("blob 0" ++ String NUL ""))) /\
  fst (git.treeTableAt ["repo"] Sample.oneDir)
  = Ok ("40000 d" ++ String NUL "6bb6fc77335eada96cdaec0e1d8642f11d7b24de").
Proof.
  conjuncts; try evaluate.
  vm_compute. discriminate.
Qed.

(** C5, on the code.  For [repo] with the directory [d] that holds the file
    [x], the field of the entry [d] is the digest, in hexadecimal, of the
    table of [d] itself (the bytes that [treeTable] returns for [d]); it is
    not the digest of the hexadecimal hash of the tree object of [d],
    neither as 20 bytes nor in hexadecimal. *)
Theorem treeTable_subdir_field :
  let subTable := "100644 x" ++ String NUL "32f95c0d1244a78b2be1bab8de17906fabb2c4a8" in
  let subHash := fmt.x (sha1.Sum (treeFrame subTable)) in
  let field := "6bb6fc77335eada96cdaec0e1d8642f11d7b24de" in
  fst (git.treeTableAt ["repo"; "d"] Sample.oneDir) = Ok subTable /\
  fst (git.treeTableAt ["repo"] Sample.oneDir) = Ok ("40000 d" ++ String NUL field) /\
  field = fmt.x (sha1.Sum subTable) /\
  subHash = "01913469b593a9dd4b193568ff15beb5ce8546de" /\
  field <> sha1.Sum subHash /\
  field <> fmt.x (sha1.Sum subHash).
Proof.
  cbv zeta. conjuncts; try evaluate; vm_compute; discriminate.
Qed.

(** ** Writing a tree and reading it back *)

(** C1, on the code.  [WriteTree] on the directory [repo] that holds the one
    file [a] succeeds, and [ReadTree] on the hash it returns fails: it skips
    20 of the 40 characters of the hash field and takes the rest for the
    mode of a further entry. *)
Theorem WriteTree_then_ReadTree_fails :
  let h := "5742ab6abc47e32c583f0fbe9bd6aab5dd880f7f" in
  let w1 := snd (git.WriteTree Sample.z Sample.repo ["repo"] Sample.oneFile) in
  git.WriteTree Sample.z Sample.repo ["repo"] Sample.oneFile = (Ok h, w1) /\
  fst (git.ReadTree Sample.z Sample.repo h w1)
  = Err (Wrapf "error reading mode: %w" [] io_EOF).
Proof. cbv zeta. conjuncts; evaluate. Qed.

(** C6, as stated, fails: after [WriteTree] on [repo] with the file [a], the
    entry of [a] refers to the blob [e69de2...], and the store has no such
    object. *)
Lemma WriteTree_leaves_blob_unwritten :
  let blob := "e69de29bb2d1d6434b8b29ae775ad8c2e48c5391" in
  let w1 := snd (git.WriteTree Sample.z Sample.repo ["repo"] Sample.oneFile) in
  fst (git.WriteTree Sample.z Sample.repo ["repo"] Sample.oneFile)
  = Ok "5742ab6abc47e32c583f0fbe9bd6aab5dd880f7f" /\
  fst (git.treeTableAt ["repo"] Sample.oneFile) = Ok ("100644 a" ++ String NUL blob) /\
  fst (git.hashBlob (git.DirFS ["repo"]) "a" Sample.oneFile)
  = Ok (blob, "blob 0" ++ String NUL "") /\
  lookup (git.objectPath Sample.repo blob) (tree w1) = None.
Proof. cbv zeta. conjuncts; evaluate. Qed.

(** [WriteTree] on [repo] with the file [a]. *)
Lemma WriteTree_persists_the_tree_only_witness :
  let h := "5742ab6abc47e32c583f0fbe9bd6aab5dd880f7f" in
  let w1 := snd (git.WriteTree Sample.z Sample.repo ["repo"] Sample.oneFile) in
  git.WriteTree Sample.z Sample.repo ["repo"] Sample.oneFile = (Ok h, w1) /\
  exists table,
    fst (git.treeTableAt ["repo"] Sample.oneFile) = Ok table /\
    h = fmt.x (sha1.Sum (treeFrame table)) /\
    lookup (git.objectPath Sample.repo h) (tree w1)
    = Some (File (zlib.deflate Sample.z (treeFrame table))) /\
    forall hash', hash' <> h ->
      lookup (git.objectPath Sample.repo hash') (tree w1)
      = lookup (git.objectPath Sample.repo hash') (tree Sample.oneFile).
Proof.
  cbv zeta.
  assert (Hw : git.WriteTree Sample.z Sample.repo ["repo"] Sample.oneFile
               = (Ok "5742ab6abc47e32c583f0fbe9bd6aab5dd880f7f",
                  snd (git.WriteTree Sample.z Sample.repo ["repo"] Sample.oneFile)))
    by (vm_compute; reflexivity).
  split; [exact Hw|].
  exact (WriteTree_persists_the_tree_only Sample.z Sample.repo ["repo"]
           Sample.oneFile _ _ Hw).
Defined.

(** ** Listing a tree *)

(** C2, on the code.  The tree that git writes for a directory with the file
    [a.txt] and the directory [a] is listed as [a.txt], [a]: the order in
    which the entries are stored.  In byte-wise order [a] comes before
    [a.txt].  The earlier revision lists an empty name for each entry. *)
Theorem ReadTree_lists_in_stored_order :
  let hash := "2399f85376af0722127e146d8a6c8274095010ab" in
  hash = fmt.x (sha1.Sum Sample.gitTree) /\
  fst (git.ReadTree Sample.z Sample.repo hash (Sample.stored Sample.gitTree))
  = Ok ("a.txt" ++ String LF ("a" ++ String LF "")) /\
  String.ltb "a" "a.txt" = true /\
  fst (Earlier.ReadTree Sample.z Sample.repo hash (Sample.stored Sample.gitTree))
  = Ok (String LF "").
Proof. cbv zeta. conjuncts; evaluate. Qed.

(** C7, on the code.  The same tree object with its last 15 bytes missing,
    so that 5 bytes are left of the last hash field, is listed without an
    error, and so is the one with a single byte missing.  With the last
    20 bytes missing, none being left of the field, [ReadTree] fails on the
    hash, and with 22 missing on the name. *)
Theorem ReadTree_accepts_short_hash_field :
  fst (git.ReadTree Sample.z Sample.repo
         "25a59b10aa17792f61b8744fcd36c624c43bdcd4"
         (Sample.stored (Sample.cutTree 15)))
  = Ok ("a.txt" ++ String LF ("a" ++ String LF "")) /\
  git.parseTree (Sample.cutTree 1) = Ok ("a.txt" ++ String LF ("a" ++ String LF "")) /\
  git.parseTree (Sample.cutTree 20) = Err (Wrapf "error reading hash: %w" [] io_EOF) /\
  git.parseTree (Sample.cutTree 22) = Err (Wrapf "error reading name: %w" [] io_EOF).
Proof. conjuncts; evaluate. Qed.

(** The length field of the header is not looked at: with any bytes in its
    place, a null byte apart, a well-formed tree that fits the buffer is
    listed just the same. *)
Lemma parseTree_ignores_length (len len' : string) (es : list TreeEntry) :
  contains NUL len = false ->
  contains NUL len' = false ->
  Forall wellFormed es ->
  String.length ("tree " ++ len ++ String NUL (encodeEntries es))
  <= bufio.defaultBufSize ->
  String.length ("tree " ++ len' ++ String NUL (encodeEntries es))
  <= bufio.defaultBufSize ->
  git.parseTree ("tree " ++ len' ++ String NUL (encodeEntries es))
  = git.parseTree ("tree " ++ len ++ String NUL (encodeEntries es)).
Proof.
  intros Hl Hl' Hwf Hfit Hfit'.
  now rewrite !parseTree_listing.
Qed.

(** ** What [treeTable] writes, and what [ReadTree] makes of it *)

Lemma hexdigit_not_space (n : N) : Ascii.eqb (fmt.hexdigit n) SP = false.
Proof.
  destruct n as [|p]; [reflexivity|].
  do 4 (destruct p as [p|p|]; try reflexivity).
Qed.

Lemma fmt_x_no_space (bs : string) : contains SP (fmt.x bs) = false.
Proof.
  induction bs as [|c bs IH]; simpl; [reflexivity|].
  now rewrite !hexdigit_not_space, IH.
Qed.

Lemma contains_drop (c : ascii) (n : nat) (s : string) :
  contains c s = false -> contains c (drop n s) = false.
Proof.
  revert s; induction n as [|n IH]; intros [|x s]; simpl; trivial.
  intros H. apply orb_false_iff in H as [_ H]. now apply IH.
Qed.

Lemma length_take (n : nat) (s : string) :
  n <= String.length s -> String.length (take n s) = n.
Proof.
  revert s; induction n as [|n IH]; intros [|x s]; simpl; intros H;
    try reflexivity; try lia.
  rewrite IH; lia.
Qed.

Lemma length_drop (n : nat) (s : string) :
  String.length (drop n s) = String.length s - n.
Proof.
  revert s; induction n as [|n IH]; intros [|x s]; simpl; trivial.
Qed.

(** A hash that [hashBlob] returns is the hexadecimal digest of the blob. *)
Lemma hashBlob_hex (fsys : git.FS) (filename : string) (f : error -> error)
    (w w' : world) (hash blob : string) :
  onErr (git.hashBlob fsys filename) f w = (Ok (hash, blob), w') ->
  hash = fmt.x (sha1.Sum blob).
Proof.
  unfold git.hashBlob, onErr, bind, lift, ret.
  destruct (fsys filename w) as [[file|e|msg] w0]; try discriminate.
  destruct (os.ReadAll file); try discriminate.
  intros H; inversion H; reflexivity.
Qed.

(** C4 and C5, in general: whatever the directory, the table that the loop
    of [treeTable] returns is a sequence of entries whose hash fields are
    hexadecimal digests of 40 characters. *)
Lemma rangeEntries_shape (rec : pathname -> node -> M string)
    (dirname : pathname) (dirEntries : list (string * node)) :
  forall es table0 w table w',
    Forall (fun e => contains NUL (fst e) = false) es ->
    git.rangeEntries rec dirname dirEntries es table0 w = (Ok table, w') ->
    exists hs, table = table0 ++ encodeEntries hs /\ Forall hexEntry hs.
Proof.
  induction es as [|[name dirEntry] es IH]; intros table0 w table w' Hn; simpl.
  - intros H; inversion H; subst. exists []. simpl.
    now rewrite string_app_empty_r.
  - inversion Hn as [|? ? Hname Hn']; subst. simpl in Hname.
    destruct dirEntry as [data|sub].
    + unfold bind at 1.
      destruct (onErr (git.hashBlob _ name) _ w) as [[[hash blob]|e|msg] w0] eqn:HB;
        try discriminate.
      apply hashBlob_hex in HB. intros H.
      destruct (IH _ _ _ _ Hn' H) as (hs & -> & Hhs).
      exists (mkEntry "100644" name hash :: hs). split.
      * cbn [encodeEntries]. unfold encodeEntry. cbn [entry_mode entry_name entry_hash].
        rewrite !string_app_assoc. reflexivity.
      * constructor; [|exact Hhs].
        split; [now left|]. split; [exact Hname|]. now exists blob.
    + destruct (String.eqb name ".git"); [now apply IH|].
      unfold bind at 1.
      destruct (onErr (rec _ _) _ w) as [[subHash|e|msg] w0]; try discriminate.
      intros H.
      destruct (IH _ _ _ _ Hn' H) as (hs & -> & Hhs).
      exists (mkEntry "40000" name (fmt.x (sha1.Sum subHash)) :: hs). split.
      * cbn [encodeEntries]. unfold encodeEntry. cbn [entry_mode entry_name entry_hash].
        rewrite !string_app_assoc. reflexivity.
      * constructor; [|exact Hhs].
        split; [now right|]. split; [exact Hname|]. now exists subHash.
Qed.

Lemma reframe_encode (hs : list TreeEntry) :
  forall carry,
    carry ++ encodeEntries hs
    = encodeEntries (fst (reframe carry hs)) ++ snd (reframe carry hs).
Proof.
  induction hs as [|h hs IH]; intros carry; cbn [reframe encodeEntries].
  - now rewrite string_app_empty_r.
  - specialize (IH (drop 20 (entry_hash h))).
    destruct (reframe (drop 20 (entry_hash h)) hs) as [es tail].
    cbn [fst snd encodeEntries] in *.
    rewrite string_app_assoc, !encodeEntry_app.
    cbn [entry_mode entry_name entry_hash].
    rewrite <- IH, <- (string_app_assoc (take 20 (entry_hash h))), take_drop.
    now rewrite (string_app_assoc carry).
Qed.

Lemma reframe_length (hs : list TreeEntry) :
  forall carry, List.length (fst (reframe carry hs)) = List.length hs.
Proof.
  induction hs as [|h hs IH]; intros carry; cbn [reframe]; [reflexivity|].
  specialize (IH (drop 20 (entry_hash h))).
  destruct (reframe (drop 20 (entry_hash h)) hs) as [es tail].
  simpl in *. now rewrite IH.
Qed.

Lemma hexEntry_mode (h : TreeEntry) :
  hexEntry h -> contains SP (entry_mode h) = false.
Proof. intros [[-> | ->] _]; reflexivity. Qed.

Lemma reframe_wellFormed (hs : list TreeEntry) :
  forall carry,
    contains SP carry = false ->
    Forall hexEntry hs ->
    Forall wellFormed (fst (reframe carry hs)) /\
    contains SP (snd (reframe carry hs)) = false /\
    (hs <> [] -> String.length (snd (reframe carry hs)) = 20).
Proof.
  induction hs as [|h hs IH]; intros carry Hc Hhs; cbn [reframe].
  - split; [constructor | split; [exact Hc | congruence]].
  - inversion Hhs as [|? ? Hh Hhs']; subst.
    pose proof (hexEntry_mode _ Hh) as Hm.
    destruct Hh as (_ & Hname & data & Hhash).
    assert (Hsp : contains SP (drop 20 (entry_hash h)) = false)
      by (rewrite Hhash; apply contains_drop, fmt_x_no_space).
    destruct (IH _ Hsp Hhs') as (Hwf & Htail & Hlen).
    destruct (reframe (drop 20 (entry_hash h)) hs) as [es tail] eqn:R.
    cbn [fst snd] in *. split; [|split].
    + constructor; [|exact Hwf].
      unfold wellFormed. cbn [entry_mode entry_name entry_hash]. split; [|split].
      * now rewrite contains_app, Hc, Hm.
      * exact Hname.
      * rewrite length_take; [reflexivity|]. rewrite Hhash, hash_length. lia.
    + exact Htail.
    + intros _. destruct hs as [|h' hs'].
      * cbn [reframe] in R.
        assert (E : tail = drop 20 (entry_hash h)) by congruence.
        rewrite E, length_drop, Hhash, hash_length. reflexivity.
      * apply Hlen. discriminate.
Qed.

(** At the end of the input [ReadString] returns what is left with
    [io.EOF]. *)
Lemma ReadString_end (delim : ascii) (s : string) :
  contains delim s = false ->
  bufio.ReadString delim (bufio.mkReader s "")
  = ((s, Some io_EOF), bufio.mkReader "" "").
Proof.
  intros H. unfold bufio.ReadString. cbn [bufio.rd String.length bufio.readString bufio.buf].
  now rewrite (cut_none _ _ H).
Qed.

(** C1, in general: [ReadTree] fails on every table of [treeTable] that has
    an entry and fits the buffer of the reader. *)
Lemma parseTree_hex_table (len : string) (hs : list TreeEntry) :
  contains NUL len = false ->
  Forall hexEntry hs ->
  hs <> [] ->
  String.length ("tree " ++ len ++ String NUL (encodeEntries hs))
  <= bufio.defaultBufSize ->
  git.parseTree ("tree " ++ len ++ String NUL (encodeEntries hs))
  = Err (Wrapf "error reading mode: %w" [] io_EOF).
Proof.
  intros Hlen Hhs Hne Hfit.
  rewrite (parseTree_header _ _ Hlen Hfit), frame_length.
  pose proof (encodeEntries_length hs) as Hl.
  pose proof (reframe_length hs "") as Hr.
  destruct (reframe_wellFormed hs "" eq_refl Hhs) as (Hwf & Htail & Htl).
  specialize (Htl Hne).
  change (encodeEntries hs) with ("" ++ encodeEntries hs) at 2.
  rewrite reframe_encode.
  destruct (reframe "" hs) as [es tail]. cbn [fst snd] in *.
  replace (S (6 + String.length len + String.length (encodeEntries hs)))
    with (List.length es
          + S (6 + String.length len + String.length (encodeEntries hs)
               - List.length es)) by lia.
  rewrite readEntries_prefix by exact Hwf.
  rewrite readEntries_step.
  destruct tail as [|c tail]; [discriminate|].
  rewrite Peek1_buffered, (ReadString_end _ _ Htail). reflexivity.
Qed.

Lemma WriteTree_stored (z : zlib.Codec) (r : git.Repository)
    (dirname : pathname) (w w1 : world) (h table : string) :
  fst (git.treeTableAt dirname w) = Ok table ->
  git.WriteTree z r dirname w = (Ok h, w1) ->
  h = fmt.x (sha1.Sum (treeFrame table)) /\
  lookup (git.objectPath r h) (tree w1)
  = Some (File (zlib.deflate z (treeFrame table))).
Proof.
  unfold git.WriteTree. unfold bind at 1. unfold onErr at 1.
  destruct (git.treeTableAt dirname w) as [[table'|e|msg] w'];
    cbn [fst]; intros Ht; try discriminate.
  inversion Ht; subst table'. intros H.
  apply store_object in H as (-> & Hl & _). now split.
Qed.

(** [WriteTree] followed by [ReadTree] on the hash it returns fails for
    every directory with names free of null bytes whose table has an entry
    and, framed, fits the buffer of the reader. *)
Lemma ReadTree_of_WriteTree_fails (z : zlib.Codec) (r : git.Repository)
    (dirname : pathname) (w w1 : world) (es : list (string * node))
    (h table : string) :
  lookup dirname (tree w) = Some (Dir es) ->
  Forall (fun e => contains NUL (fst e) = false) es ->
  fst (git.treeTableAt dirname w) = Ok table ->
  table <> "" ->
  String.length (treeFrame table) <= bufio.defaultBufSize ->
  zlib.inflate z (zlib.deflate z (treeFrame table)) = Some (treeFrame table) ->
  git.WriteTree z r dirname w = (Ok h, w1) ->
  fst (git.ReadTree z r h w1) = Err (Wrapf "error reading mode: %w" [] io_EOF).
Proof.
  intros Hdir Hnames Ht Hne Hfit Hz Hw.
  destruct (WriteTree_stored _ _ _ _ _ _ _ Ht Hw) as [-> Hl].
  rewrite (ReadTree_stored z r _ w1 _ _ (hash_length _) Hl Hz).
  unfold git.treeTableAt in Ht. rewrite Hdir in Ht. cbn [git.treeTable] in Ht.
  destruct (git.rangeEntries _ _ _ _ _ _) as [res w'] eqn:R. cbn [fst] in Ht. subst res.
  destruct (rangeEntries_shape _ _ _ _ _ _ _ _ Hnames R) as (hs & Hshape & Hhs).
  cbn [append] in Hshape. subst table.
  apply parseTree_hex_table; trivial.
  - apply fmt_d_no. reflexivity.
  - intros ->. now apply Hne.
Qed.

(** ** The general lemmas on the samples *)

Example ReadTree_of_WriteTree_fails_oneFile :
  fst (git.ReadTree Sample.z Sample.repo "5742ab6abc47e32c583f0fbe9bd6aab5dd880f7f"
         (snd (git.WriteTree Sample.z Sample.repo ["repo"] Sample.oneFile)))
  = Err (Wrapf "error reading mode: %w" [] io_EOF).
Proof.
  apply (ReadTree_of_WriteTree_fails Sample.z Sample.repo ["repo"] Sample.oneFile
           _ [("a", File "")] _
           ("100644 a" ++ String NUL "e69de29bb2d1d6434b8b29ae775ad8c2e48c5391")).
  - reflexivity.
  - repeat constructor.
  - evaluate.
  - discriminate.
  - apply Nat.leb_le. evaluate.
  - evaluate.
  - evaluate.
Qed.

Example parseTree_listing_sample :
  let es := [ mkEntry "100644" "a.txt" (sha1.Sum ("blob 0" ++ String NUL ""));
              mkEntry "40000" "a" (sha1.Sum ("tree 0" ++ String NUL "")) ] in
  git.parseTree ("tree " ++ "not a number" ++ String NUL (encodeEntries es))
  = Ok ("a.txt" ++ String LF ("a" ++ String LF "")).
Proof.
  cbv zeta. rewrite parseTree_listing.
  - reflexivity.
  - reflexivity.
  - repeat constructor; apply sha1_Sum_length.
  - apply Nat.leb_le. evaluate.
Qed.

Example parseTree_short_hash_sample :
  let es := [ mkEntry "100644" "a.txt" (sha1.Sum ("blob 0" ++ String NUL "")) ] in
  let e := mkEntry "40000" "a" "12345" in
  git.parseTree ("tree " ++ "61" ++ String NUL (encodeEntries es ++ encodeEntry e))
  = Ok ("a.txt" ++ String LF ("a" ++ String LF "")).
Proof.
  cbv zeta. rewrite parseTree_short_hash.
  - reflexivity.
  - reflexivity.
  - repeat constructor; apply sha1_Sum_length.
  - reflexivity.
  - reflexivity.
  - simpl; lia.
  - apply Nat.leb_le. evaluate.
Qed.

(** ** Fuel *)

Lemma fill_rd_shrinks (b : bufio.Reader) (c : ascii) (s : string) :
  bufio.rd b = String c s ->
  String.length (bufio.buf b) < bufio.defaultBufSize ->
  String.length (bufio.rd (bufio.fill b)) <= String.length s.
Proof.
  intros R Hb. unfold bufio.fill. cbn [bufio.rd].
  rewrite length_drop, R. cbn [String.length]. lia.
Qed.

(** The fuel of [readString] is never used up: above the length of what the
    underlying reader holds, more fuel changes nothing. *)
Lemma readString_fuel (delim : ascii) (fuel1 : nat) :
  forall fuel2 acc b,
    String.length (bufio.rd b) <= fuel1 ->
    String.length (bufio.rd b) <= fuel2 ->
    bufio.readString fuel1 delim acc b = bufio.readString fuel2 delim acc b.
Proof.
  induction fuel1 as [|fuel1 IH]; intros fuel2 acc b H1 H2;
    destruct fuel2 as [|fuel2]; cbn [bufio.readString];
    destruct (cut delim (bufio.buf b)) as [[line rest]|]; trivial;
    destruct (bufio.rd b) as [|c s] eqn:R; trivial;
    cbn [String.length] in H1, H2; try lia.
  destruct (bufio.defaultBufSize <=? String.length (bufio.buf b))%nat eqn:Full.
  - apply IH.
    + etransitivity; [apply (fill_rd_shrinks _ c s); [reflexivity|]|lia].
      cbn [bufio.buf String.length]. apply Nat.leb_gt, defaultBufSize_pos.
    + etransitivity; [apply (fill_rd_shrinks _ c s); [reflexivity|]|lia].
      cbn [bufio.buf String.length]. apply Nat.leb_gt, defaultBufSize_pos.
  - apply Nat.leb_gt in Full.
    apply IH; (etransitivity; [apply (fill_rd_shrinks _ c s); assumption|lia]).
Qed.

(** An [Init] that fails leaves the handle as it was. *)
Lemma Init_failure (r r1 : git.Repository) (w w1 : world) (c : M unit) (e : error) :
  git.Init r w = ((c, Err e), r1, w1) -> r1 = r.
Proof.
  unfold git.Init. destruct (git.initialized r).
  - intros H; now inversion H.
  - destruct (bind _ _ w) as [[[]|e'|msg] w']; intros H; now inversion H.
Qed.

(** * Further properties of the package *)

(** ** Blobs: write, read back, and what else is touched *)

Lemma keeps_Open (p : pathname) : keeps_tree (os.Open p).
Proof. intros w. unfold os.Open. simpl. now destruct (lookup p (tree w)). Qed.

Lemma keeps_fail {A : Type} (e : error) : keeps_tree (@fail A e).
Proof. now intros w. Qed.

(** X1. A file without a null byte, written as a blob, is read back whole
    by [CatFile] on the hash that [WriteBlob] returns. *)
Theorem WriteBlob_CatFile_roundtrip (z : zlib.Codec) (r : git.Repository)
    (dir : pathname) (filename payload : string) (w w1 : world) (h : string) :
  lookup (path.Join dir [filename]) (tree w) = Some (File payload) ->
  contains NUL payload = false ->
  zlib.inflate z (zlib.deflate z (blobFrame payload)) = Some (blobFrame payload) ->
  git.WriteBlob z r (git.DirFS dir) filename w = (Ok h, w1) ->
  fst (git.CatFile z r h w1) = Ok payload.
Proof.
  intros Hfile Hnul Hz Hw.
  destruct (WriteBlob_then_CatFile _ _ _ _ _ _ _ _ Hfile Hz Hw) as [_ ->].
  now rewrite Split_blobFrame, (Split_none _ _ Hnul).
Qed.

Lemma WriteBlob_CatFile_roundtrip_witness :
  let w1 := snd (git.WriteBlob Sample.z Sample.repo (git.DirFS ["repo"])
                   "test.txt" Sample.testFile) in
  fst (git.CatFile Sample.z Sample.repo "08cf6101416f0ce0dda3c80e627f333854c4085c" w1)
  = Ok "test content".
Proof.
  cbv zeta.
  apply (WriteBlob_CatFile_roundtrip Sample.z Sample.repo ["repo"] "test.txt"
           "test content" Sample.testFile).
  - reflexivity.
  - reflexivity.
  - vm_compute; reflexivity.
  - vm_compute; reflexivity.
Defined.

(** X2. [WriteBlob] changes the file tree only on the way to the object it
    stores: the objects under other hashes, and every other file, are as
    they were. *)
Theorem WriteBlob_touches_its_object_only (z : zlib.Codec) (r : git.Repository)
    (dir : pathname) (filename : string) (w w1 : world) (h : string) :
  git.WriteBlob z r (git.DirFS dir) filename w = (Ok h, w1) ->
  (forall p, ~ is_prefix p (git.objectPath r h) ->
             lookup p (tree w1) = lookup p (tree w)) /\
  (forall hash', hash' <> h ->
                 lookup (git.objectPath r hash') (tree w1)
                 = lookup (git.objectPath r hash') (tree w)).
Proof.
  unfold git.WriteBlob. unfold bind at 1.
  pose proof (keeps_onErr _ (Wrapf "failed to hash the file: %w" [])
                (keeps_hashBlob (git.DirFS dir) filename (keeps_Open _)) w) as K.
  destruct (onErr (git.hashBlob (git.DirFS dir) filename) _ w)
    as [[[hash blob]|e|msg] w'] eqn:HB; try discriminate.
  cbn [snd] in K. intros H.
  apply store_object in H as (-> & _ & Ho).
  assert (Hp : forall p, ~ is_prefix p (git.objectPath r hash) ->
                         lookup p (tree w1) = lookup p (tree w))
    by (intros p Hp; rewrite <- K; now apply Ho).
  split; [exact Hp|].
  intros hash' Hne. apply Hp. now apply objectPath_not_prefix.
Qed.

Lemma WriteBlob_touches_its_object_only_witness :
  let w1 := snd (git.WriteBlob Sample.z Sample.repo (git.DirFS ["repo"])
                   "test.txt" Sample.testFile) in
  lookup ["repo"; "test.txt"] (tree w1) = Some (File "test content").
Proof.
  cbv zeta.
  assert (Hw : git.WriteBlob Sample.z Sample.repo (git.DirFS ["repo"]) "test.txt"
                 Sample.testFile
               = (Ok "08cf6101416f0ce0dda3c80e627f333854c4085c",
                  snd (git.WriteBlob Sample.z Sample.repo (git.DirFS ["repo"])
                         "test.txt" Sample.testFile)))
    by (vm_compute; reflexivity).
  rewrite (proj1 (WriteBlob_touches_its_object_only _ _ _ _ _ _ _ Hw)
             ["repo"; "test.txt"]).
  - reflexivity.
  - intros [s Hs]. vm_compute in Hs. discriminate Hs.
Defined.

(** ** Hashes and the validation of hashes *)

(** X3. The hash that [WriteBlob] or [WriteTree] returns has 40
    characters, whatever was written. *)
Theorem written_hash_has_40_characters (z : zlib.Codec) (r : git.Repository)
    (w w1 : world) (h : string) :
  (exists fsys filename, git.WriteBlob z r fsys filename w = (Ok h, w1)) \/
  (exists dirname, git.WriteTree z r dirname w = (Ok h, w1)) ->
  String.length h = 40.
Proof.
  intros [(fsys & filename & H) | (dirname & H)]; revert H.
  - unfold git.WriteBlob. unfold bind at 1.
    destruct (onErr (git.hashBlob fsys filename) _ w)
      as [[[hash blob]|e|msg] w'] eqn:HB; try discriminate.
    apply hashBlob_hex in HB. intros H.
    apply store_object in H as (-> & _). subst hash. apply hash_length.
  - unfold git.WriteTree. unfold bind at 1.
    destruct (onErr (git.treeTableAt dirname) _ w) as [[table|e|msg] w'];
      try discriminate.
    intros H. apply store_object in H as (-> & _). apply hash_length.
Qed.

Lemma written_hash_has_40_characters_witness :
  String.length "5742ab6abc47e32c583f0fbe9bd6aab5dd880f7f" = 40.
Proof.
  apply (written_hash_has_40_characters Sample.z Sample.repo Sample.oneFile
           (snd (git.WriteTree Sample.z Sample.repo ["repo"] Sample.oneFile))).
  right. exists ["repo"]. vm_compute; reflexivity.
Defined.

(** The errors of the reader are [io.EOF]. *)
Lemma readString_error (fuel : nat) (delim : ascii) :
  forall acc b line e b',
    bufio.readString fuel delim acc b = ((line, Some e), b') -> e = io_EOF.
Proof.
  induction fuel as [|fuel IH]; intros acc b line e b'; cbn [bufio.readString];
    destruct (cut delim (bufio.buf b)) as [[l rest]|]; try discriminate.
  - intros H; now inversion H.
  - destruct (bufio.rd b); [intros H; now inversion H|].
    destruct (bufio.defaultBufSize <=? String.length (bufio.buf b))%nat; apply IH.
Qed.

Lemma Peek1_error (b b' : bufio.Reader) (e : error) :
  bufio.Peek1 b = (Some e, b') -> e = io_EOF.
Proof.
  unfold bufio.Peek1.
  destruct (bufio.buf (match bufio.buf b with "" => bufio.fill b | _ => b end));
    intros H; now inversion H.
Qed.

Lemma Read_error (n k : nat) (b b' : bufio.Reader) (e : error) :
  bufio.Read n b = ((k, Some e), b') -> e = io_EOF.
Proof.
  unfold bufio.Read.
  destruct (bufio.buf (match bufio.buf b with "" => bufio.fill b | _ => b end));
    intros H; now inversion H.
Qed.

(** Every error of the loop of [ReadTree] wraps [io.EOF]. *)
Lemma readEntries_error (fuel : nat) :
  forall br names e,
    git.readEntries fuel br names = Err e ->
    exists format, e = Wrapf format [] io_EOF.
Proof.
  induction fuel as [|fuel IH]; intros br names e; [discriminate|].
  rewrite readEntries_step.
  destruct (bufio.Peek1 br) as [[e0|] br1] eqn:P.
  - apply Peek1_error in P; subst e0. discriminate.
  - unfold bufio.ReadString at 1.
    destruct (bufio.readString _ SP "" br1) as [[mode [e1|]] br2] eqn:R1.
    + apply readString_error in R1; subst e1. intros H; inversion H. eauto.
    + unfold bufio.ReadString at 1.
      destruct (bufio.readString _ NUL "" br2) as [[name [e2|]] br3] eqn:R2.
      * apply readString_error in R2; subst e2. intros H; inversion H. eauto.
      * destruct (bufio.Read 20 br3) as [[k [e3|]] br4] eqn:R3.
        -- apply Read_error in R3; subst e3. intros H; inversion H. eauto.
        -- apply IH.
Qed.

(** An error of [parseTree] reports a wrong type or wraps [io.EOF]. *)
Lemma parseTree_error (reader : string) (e : error) :
  git.parseTree reader = Err e ->
  (exists typ, e = Errorf "expected type to be tree, got: %s" [typ]) \/
  (exists format, e = Wrapf format [] io_EOF).
Proof.
  unfold git.parseTree. unfold bufio.ReadString at 1.
  destruct (bufio.readString _ SP "" _) as [[typ [e1|]] br1] eqn:R1;
    cbn beta iota zeta.
  - apply readString_error in R1; subst e1. intros H; inversion H. eauto.
  - destruct (negb (typ =? "tree ")%string); [intros H; inversion H; eauto|].
    unfold bufio.ReadString at 1.
    destruct (bufio.readString _ NUL "" br1) as [[len [e2|]] br2] eqn:R2;
      cbn beta iota zeta.
    + apply readString_error in R2; subst e2. intros H; inversion H. eauto.
    + destruct (git.readEntries _ br2 []) as [names|e3|msg] eqn:L; try discriminate.
      intros H; inversion H; subst e3. right. eapply readEntries_error, L.
Qed.

(** X4. [ErrInvalidHash] is kept for the length of the hash: on a hash of
    40 characters no error of [CatFile] or [ReadTree] wraps it. *)
Theorem ErrInvalidHash_only_for_the_length (z : zlib.Codec) (r : git.Repository)
    (hash : string) (w w' : world) (e : error) :
  String.length hash = 40 ->
  git.CatFile z r hash w = (Err e, w') \/ git.ReadTree z r hash w = (Err e, w') ->
  errors.Is e ErrInvalidHash = false.
Proof.
  intros Hlen [H | H]; revert H.
  - unfold git.CatFile. rewrite Hlen. cbn [Nat.eqb negb].
    unfold bind, onErr, os.Open, lift, zlib.NewReader, index. cbn [tree os.log].
    destruct (lookup _ (tree w)) as [[c|es]|]; cbn.
    + destruct (zlib.inflate z c) as [frame|]; cbn.
      * destruct (strings.Split frame NUL) as [|x [|y l]]; cbn; discriminate.
      * intros H; now inversion H.
    + intros H; now inversion H.
    + intros H; now inversion H.
  - unfold git.ReadTree. rewrite Hlen. cbn [Nat.eqb negb].
    unfold bind, onErr, os.Open, lift, zlib.NewReader. cbn [tree os.log].
    destruct (lookup _ (tree w)) as [[c|es]|]; cbn.
    + destruct (zlib.inflate z c) as [frame|]; cbn.
      * destruct (git.parseTree frame) as [out|e'|msg] eqn:P; try discriminate.
        intros H; inversion H; subst e'.
        destruct (parseTree_error _ _ P) as [[typ ->] | [format ->]]; reflexivity.
      * intros H; now inversion H.
    + intros H; now inversion H.
    + intros H; now inversion H.
Qed.

Lemma ErrInvalidHash_only_for_the_length_witness :
  let hash := "e69de29bb2d1d6434b8b29ae775ad8c2e48c5391" in
  let e := Errorf "object: %s does not exist"
             ["repo/.git/objects/e6/9de29bb2d1d6434b8b29ae775ad8c2e48c5391"] in
  git.CatFile Sample.z Sample.repo hash Sample.oneFile
  = (Err e, snd (git.CatFile Sample.z Sample.repo hash Sample.oneFile)) /\
  errors.Is e ErrInvalidHash = false.
Proof.
  cbv zeta.
  assert (H : git.CatFile Sample.z Sample.repo
                "e69de29bb2d1d6434b8b29ae775ad8c2e48c5391" Sample.oneFile
              = (Err (Errorf "object: %s does not exist"
                        ["repo/.git/objects/e6/9de29bb2d1d6434b8b29ae775ad8c2e48c5391"]),
                 snd (git.CatFile Sample.z Sample.repo
                        "e69de29bb2d1d6434b8b29ae775ad8c2e48c5391" Sample.oneFile)))
    by (vm_compute; reflexivity).
  split; [exact H|].
  apply (ErrInvalidHash_only_for_the_length Sample.z Sample.repo
           "e69de29bb2d1d6434b8b29ae775ad8c2e48c5391" Sample.oneFile _ _ eq_refl
           (or_introl H)).
Defined.

(** ** Reading objects: what can go wrong *)

(** X5. A stored object without a null byte in it makes [CatFile] panic:
    the second element of the split does not exist. *)
Theorem CatFile_panics_without_null (z : zlib.Codec) (r : git.Repository)
    (hash : string) (w : world) (c frame : string) :
  String.length hash = 40 ->
  lookup (git.objectPath r hash) (tree w) = Some (File c) ->
  zlib.inflate z c = Some frame ->
  contains NUL frame = false ->
  fst (git.CatFile z r hash w) = Panic "index out of range".
Proof.
  intros Hlen Hfile Hz Hnul.
  rewrite (CatFile_stored z r hash w c frame Hlen Hfile Hz).
  now rewrite (Split_none _ _ Hnul).
Qed.

Lemma CatFile_panics_without_null_witness :
  fst (git.CatFile Sample.z Sample.repo (fmt.x (sha1.Sum "no header"))
         (Sample.stored "no header"))
  = Panic "index out of range".
Proof.
  apply (CatFile_panics_without_null Sample.z Sample.repo _ _
           (zlib.deflateStored "no header") "no header").
  - apply hash_length.
  - vm_compute; reflexivity.
  - vm_compute; reflexivity.
  - reflexivity.
Defined.

(** X6. [CatFile] and [ReadTree] only read: whatever they return, the file
    tree is as it was. *)
Theorem CatFile_ReadTree_read_only (z : zlib.Codec) (r : git.Repository)
    (hash : string) (w : world) :
  tree (snd (git.CatFile z r hash w)) = tree w /\
  tree (snd (git.ReadTree z r hash w)) = tree w.
Proof.
  split.
  - unfold git.CatFile. destruct (negb _); [reflexivity|].
    apply keeps_bind; [apply keeps_onErr, keeps_Open|]. intros f.
    apply keeps_bind; [apply keeps_onErr, keeps_lift|]. intros blob.
    apply keeps_lift.
  - unfold git.ReadTree. destruct (negb _); [reflexivity|].
    apply keeps_bind; [apply keeps_onErr, keeps_Open|]. intros f.
    apply keeps_bind; [apply keeps_onErr, keeps_lift|]. intros reader.
    apply keeps_lift.
Qed.





(** ** Writing: what can go wrong *)



(** ** More on the file system *)

Lemma is_prefix_cons_inv (x y : string) (p q : pathname) :
  is_prefix (x :: p) (y :: q) -> x = y /\ is_prefix p q.
Proof. intros [s Hs]. inversion Hs; subst. split; [reflexivity | now exists s]. Qed.

Lemma is_prefix_nil_inv (p : pathname) : is_prefix p [] -> p = [].
Proof. intros [s Hs]. destruct p; [reflexivity | discriminate]. Qed.

Lemma is_prefix_refl (p : pathname) : is_prefix p p.
Proof. exists []. now rewrite List.app_nil_r. Qed.

Lemma is_prefix_app (p q : pathname) : is_prefix p (p ++ q)%list.
Proof. now exists q. Qed.

Lemma is_prefix_snoc (q d : pathname) (x : string) :
  is_prefix q (d ++ [x])%list -> is_prefix q d \/ q = (d ++ [x])%list.
Proof.
  revert q; induction d as [|y d IH]; intros q H.
  - destruct q as [|z q]; [left; apply is_prefix_nil|].
    apply is_prefix_cons_inv in H as [-> H].
    apply is_prefix_nil_inv in H; subst. now right.
  - destruct q as [|z q]; [left; apply is_prefix_nil|].
    simpl in H. apply is_prefix_cons_inv in H as [-> H].
    destruct (IH _ H) as [Hp | ->].
    + left. now apply is_prefix_cons.
    + now right.
Qed.

Lemma lookup_app (p q : pathname) :
  forall n,
    lookup (p ++ q)%list n
    = match lookup p n with Some m => lookup q m | None => None end.
Proof.
  induction p as [|x p IH]; intros n; simpl; [reflexivity|].
  destruct n as [|es]; [reflexivity|].
  destruct (lookup_entry x es); [apply IH | reflexivity].
Qed.

(** After [mkdirAll] the directory and all its parents are directories. *)
Lemma mkdirAll_is_dir (d : pathname) :
  forall n n' q,
    mkdirAll d n = Some n' -> is_prefix q d ->
    exists es, lookup q n' = Some (Dir es).
Proof.
  induction d as [|name d IH]; intros n n' q H Hq; simpl in H;
    destruct n as [|es]; try discriminate.
  - inversion H; subst. apply is_prefix_nil_inv in Hq; subst. simpl. eauto.
  - destruct (mkdirAll d _) as [c'|] eqn:Mk; [|discriminate].
    inversion H; subst n'.
    destruct q as [|x q]; [simpl; eauto|].
    apply is_prefix_cons_inv in Hq as [-> Hq].
    simpl. rewrite lookup_insert_entry. eauto.
Qed.

(** [mkdirAll] succeeds unless a file is in the way. *)
Lemma mkdirAll_some (d : pathname) :
  forall n,
    (forall q data, is_prefix q d -> lookup q n <> Some (File data)) ->
    exists n', mkdirAll d n = Some n'.
Proof.
  induction d as [|name d IH]; intros n H.
  - destruct n as [data|es]; [|simpl; eauto].
    destruct (H [] data (is_prefix_nil _)). reflexivity.
  - destruct n as [data|es].
    + destruct (H [] data (is_prefix_nil _)). reflexivity.
    + simpl.
      destruct (IH (match lookup_entry name es with
                    | Some c => c
                    | None => Dir []
                    end)) as [c' ->]; [|eauto].
      intros q data Hq.
      specialize (H (name :: q) data (is_prefix_cons _ _ _ Hq)). simpl in H.
      destruct (lookup_entry name es); [exact H|].
      destruct q; simpl; discriminate.
Qed.

(** [writeFile] succeeds in a directory that exists, unless the name is
    that of a directory. *)
Lemma writeFile_some (p : pathname) (name data : string) :
  forall n es,
    lookup p n = Some (Dir es) ->
    (forall es', lookup_entry name es <> Some (Dir es')) ->
    exists n', writeFile (p ++ [name])%list data n = Some n'.
Proof.
  induction p as [|x p IH]; intros n es Hp Hname; simpl in *.
  - inversion Hp; subst n.
    destruct (lookup_entry name es) as [[d|es']|] eqn:L; eauto.
    destruct (Hname es'). reflexivity.
  - destruct n as [|es0]; [discriminate|].
    destruct (lookup_entry x es0) as [c|] eqn:L; [|discriminate].
    destruct (IH _ _ Hp Hname) as [c' ->]. eauto.
Qed.

(** [writeFile] leaves the parents of the file directories. *)
Lemma writeFile_parents (q : pathname) (data : string) :
  forall n n' p x s,
    writeFile q data n = Some n' -> q = (p ++ x :: s)%list ->
    exists es, lookup p n' = Some (Dir es).
Proof.
  induction q as [|name q IH]; intros n n' p x s H Hq; simpl in H.
  - destruct p; discriminate.
  - destruct n as [|es]; [discriminate|].
    assert (Hn' : exists es', n' = Dir es').
    { destruct (lookup_entry name es) as [c|].
      - destruct (writeFile q data c); [|discriminate]. inversion H; eauto.
      - destruct q; [|discriminate]. inversion H; eauto. }
    destruct p as [|y p]; [destruct Hn' as [es' ->]; simpl; eauto|].
    inversion Hq; subst y q.
    destruct (lookup_entry name es) as [c|] eqn:L.
    + destruct (writeFile _ data c) as [c'|] eqn:W; [|discriminate].
      inversion H; subst n'. simpl. rewrite lookup_insert_entry.
      eapply IH; [exact W | reflexivity].
    + destruct (p ++ x :: s)%list eqn:E; [destruct p; discriminate | discriminate].
Qed.

(** [writeFile] succeeds on a file that exists. *)
Lemma writeFile_over_file (p : pathname) (data : string) :
  forall n old,
    lookup p n = Some (File old) -> exists n', writeFile p data n = Some n'.
Proof.
  induction p as [|x p IH]; intros n old H; simpl in *.
  - inversion H; subst. eauto.
  - destruct n as [|es]; [discriminate|].
    destruct (lookup_entry x es) as [c|] eqn:L; [|discriminate].
    destruct (IH _ _ H) as [c' ->]. eauto.
Qed.

(** ** Initialisation, step by step *)

(** An [Init] that succeeds is the three [MkdirAll] and the [WriteFile],
    each having succeeded. *)
Lemma Init_steps (r r1 : git.Repository) (w w1 : world) (c : M unit) :
  git.Init r w = ((c, Ok tt), r1, w1) ->
  exists t1 t2 t3,
    mkdirAll (path.Join (git.root r) [".git"]) (tree w) = Some t1 /\
    mkdirAll (path.Join (git.root r) [".git"; "objects"]) t1 = Some t2 /\
    mkdirAll (path.Join (git.root r) [".git"; "refs"]) t2 = Some t3 /\
    writeFile (path.Join (git.root r) [".git"; "HEAD"])
      ("ref: refs/heads/master" ++ String LF "") t3 = Some (tree w1).
Proof.
  unfold git.Init. destruct (git.initialized r); [discriminate|].
  unfold git.mkdirs, bind, onErr, os.MkdirAll, os.WriteFile, ret.
  cbn [tree trace os.log].
  destruct (mkdirAll _ (tree w)) as [t1|] eqn:M1; [|discriminate]. cbn [tree trace].
  destruct (mkdirAll _ t1) as [t2|] eqn:M2; [|discriminate]. cbn [tree trace].
  destruct (mkdirAll _ t2) as [t3|] eqn:M3; [|discriminate]. cbn [tree trace].
  destruct (writeFile _ _ t3) as [t4|] eqn:W; [|discriminate].
  intros H; inversion H; subst. cbn [tree]. exists t1, t2, t3.
  repeat split; assumption.
Qed.

Lemma Init_from_steps (r : git.Repository) (w : world) (t1 t2 t3 t4 : node) :
  git.initialized r = false ->
  mkdirAll (path.Join (git.root r) [".git"]) (tree w) = Some t1 ->
  mkdirAll (path.Join (git.root r) [".git"; "objects"]) t1 = Some t2 ->
  mkdirAll (path.Join (git.root r) [".git"; "refs"]) t2 = Some t3 ->
  writeFile (path.Join (git.root r) [".git"; "HEAD"])
    ("ref: refs/heads/master" ++ String LF "") t3 = Some t4 ->
  exists w1,
    git.Init r w = ((git.cleanup r, Ok tt), git.mkRepository (git.root r) true, w1) /\
    tree w1 = t4.
Proof.
  intros I H1 H2 H3 H4. unfold git.Init. rewrite I.
  unfold git.mkdirs, bind, onErr, os.MkdirAll, os.WriteFile, ret.
  cbn [tree trace os.log]. rewrite H1. cbn [tree trace]. rewrite H2.
  cbn [tree trace]. rewrite H3. cbn [tree trace]. rewrite H4.
  eexists. split; reflexivity.
Qed.

(** The paths that [Init] makes, relative to one another. *)
Lemma under_git (base : pathname) (x : string) :
  path.Join base [".git"; x] = (path.Join base [".git"] ++ [x])%list.
Proof. unfold path.Join. now rewrite <- List.app_assoc. Qed.

Lemma not_prefix_longer (p q : pathname) :
  List.length q < List.length p -> ~ is_prefix p q.
Proof. intros H Hp. apply is_prefix_length in Hp. lia. Qed.

Lemma not_prefix_sibling (base : pathname) (x y : string) :
  x <> y -> ~ is_prefix (base ++ [x])%list (base ++ [y])%list.
Proof.
  intros Hne Hp. apply is_prefix_app_inv, is_prefix_cons_inv in Hp as [-> _].
  now apply Hne.
Qed.

(** X9. After an [Init] that succeeded, [.git/objects] and [.git/refs] are
    directories and [.git/HEAD] holds the reference to the master branch. *)
Theorem Init_makes_the_skeleton (r r1 : git.Repository) (w w1 : world) (c : M unit) :
  git.Init r w = ((c, Ok tt), r1, w1) ->
  (exists es, lookup (path.Join (git.root r) [".git"; "objects"]) (tree w1)
              = Some (Dir es)) /\
  (exists es, lookup (path.Join (git.root r) [".git"; "refs"]) (tree w1)
              = Some (Dir es)) /\
  lookup (path.Join (git.root r) [".git"; "HEAD"]) (tree w1)
  = Some (File ("ref: refs/heads/master" ++ String LF "")) /\
  git.initialized r1 = true.
Proof.
  intros H. pose proof H as H0.
  apply Init_steps in H as (t1 & t2 & t3 & M1 & M2 & M3 & W).
  assert (Hne : forall x, x <> "HEAD" ->
            ~ is_prefix (path.Join (git.root r) [".git"; x])
                (path.Join (git.root r) [".git"; "HEAD"])).
  { intros x Hx. rewrite !under_git. now apply not_prefix_sibling. }
  repeat split.
  - destruct (mkdirAll_is_dir _ _ _ _ M2 (is_prefix_refl _)) as [es Hes].
    exists es.
    rewrite (writeFile_lookup_other _ _ _ _ _ W) by (apply Hne; discriminate).
    rewrite (mkdirAll_lookup_other _ _ _ _ M3); [exact Hes|].
    rewrite !under_git. apply not_prefix_sibling. discriminate.
  - destruct (mkdirAll_is_dir _ _ _ _ M3 (is_prefix_refl _)) as [es Hes].
    exists es.
    rewrite (writeFile_lookup_other _ _ _ _ _ W) by (apply Hne; discriminate).
    exact Hes.
  - eapply writeFile_lookup, W.
  - unfold git.Init in H0. destruct (git.initialized r); [discriminate|].
    destruct (bind _ _ w) as [[[]|e|msg] w']; inversion H0; reflexivity.
Qed.

Lemma Init_makes_the_skeleton_witness :
  let w1 := snd (git.Init Sample.repo Sample.oneFile) in
  lookup ["repo"; ".git"; "objects"] (tree w1) = Some (Dir []) /\
  lookup ["repo"; ".git"; "refs"] (tree w1) = Some (Dir []) /\
  lookup ["repo"; ".git"; "HEAD"] (tree w1)
  = Some (File ("ref: refs/heads/master" ++ String LF "")).
Proof.
  cbv zeta.
  pose proof (Init_makes_the_skeleton Sample.repo (git.mkRepository ["repo"] true)
                Sample.oneFile (snd (git.Init Sample.repo Sample.oneFile))
                (git.cleanup Sample.repo) eq_refl) as (_ & _ & HEAD & _).
  conjuncts; [reflexivity | reflexivity | exact HEAD].
Defined.

(** X10. An [Init] that succeeded has changed nothing outside [.git], and
    inside it has left every stored object as it was: a new handle can
    initialise a repository that exists without losing what is stored. *)
Theorem Init_keeps_what_is_there (r r1 : git.Repository) (w w1 : world)
    (c : M unit) :
  git.Init r w = ((c, Ok tt), r1, w1) ->
  (forall hash, lookup (git.objectPath r hash) (tree w1)
                = lookup (git.objectPath r hash) (tree w)) /\
  (forall p, (forall q, ~ is_prefix p (path.Join (git.root r) (".git" :: q))) ->
             lookup p (tree w1) = lookup p (tree w)).
Proof.
  intros H. apply Init_steps in H as (t1 & t2 & t3 & M1 & M2 & M3 & W).
  assert (Hall : forall p,
            ~ is_prefix p (path.Join (git.root r) [".git"]) ->
            ~ is_prefix p (path.Join (git.root r) [".git"; "objects"]) ->
            ~ is_prefix p (path.Join (git.root r) [".git"; "refs"]) ->
            ~ is_prefix p (path.Join (git.root r) [".git"; "HEAD"]) ->
            lookup p (tree w1) = lookup p (tree w)).
  { intros p P1 P2 P3 P4.
    rewrite (writeFile_lookup_other _ _ _ _ _ W P4).
    rewrite (mkdirAll_lookup_other _ _ _ _ M3 P3).
    rewrite (mkdirAll_lookup_other _ _ _ _ M2 P2).
    apply (mkdirAll_lookup_other _ _ _ _ M1 P1). }
  split.
  - intros hash. apply Hall; apply not_prefix_longer;
      unfold git.objectPath, path.Join; rewrite !List.length_app; simpl; lia.
  - intros p Hp. apply Hall; apply Hp.
Qed.

Lemma Init_keeps_what_is_there_witness :
  lookup ["repo"; "a"] (tree (snd (git.Init Sample.repo Sample.oneFile)))
  = Some (File "").
Proof.
  pose proof (Init_keeps_what_is_there Sample.repo (git.mkRepository ["repo"] true)
                Sample.oneFile (snd (git.Init Sample.repo Sample.oneFile))
                (git.cleanup Sample.repo) eq_refl) as [_ H].
  rewrite (H ["repo"; "a"]); [reflexivity|].
  intros q [s Hs]. vm_compute in Hs. discriminate Hs.
Defined.

(** X11. [Init] on a fresh handle succeeds whenever no file stands where
    the root, one of its parents, [.git], [.git/objects] or [.git/refs] has
    to be a directory, and [.git/HEAD] is not a directory.  Directories that
    exist already are no obstacle. *)
Theorem Init_succeeds (r : git.Repository) (w : world) :
  git.initialized r = false ->
  (forall q data, is_prefix q (path.Join (git.root r) [".git"]) ->
                  lookup q (tree w) <> Some (File data)) ->
  (forall data, lookup (path.Join (git.root r) [".git"; "objects"]) (tree w)
                <> Some (File data)) ->
  (forall data, lookup (path.Join (git.root r) [".git"; "refs"]) (tree w)
                <> Some (File data)) ->
  (forall es, lookup (path.Join (git.root r) [".git"; "HEAD"]) (tree w)
              <> Some (Dir es)) ->
  exists w1,
    git.Init r w = ((git.cleanup r, Ok tt), git.mkRepository (git.root r) true, w1).
Proof.
  intros I H1 H2 H3 H4.
  set (d1 := path.Join (git.root r) [".git"]) in *.
  assert (Hlong : forall x, ~ is_prefix (d1 ++ [x])%list d1)
    by (intros x; apply not_prefix_longer; rewrite List.length_app; simpl; lia).
  destruct (mkdirAll_some d1 (tree w) H1) as [t1 M1].
  destruct (mkdirAll_some (path.Join (git.root r) [".git"; "objects"]) t1) as [t2 M2].
  { intros q data Hq. rewrite under_git in Hq. fold d1 in Hq.
    destruct (is_prefix_snoc _ _ _ Hq) as [Hp | ->].
    - destruct (mkdirAll_is_dir _ _ _ _ M1 Hp) as [es ->]. discriminate.
    - rewrite (mkdirAll_lookup_other _ _ _ _ M1 (Hlong _)).
      unfold d1. rewrite <- under_git. apply H2. }
  destruct (mkdirAll_some (path.Join (git.root r) [".git"; "refs"]) t2) as [t3 M3].
  { intros q data Hq. rewrite under_git in Hq. fold d1 in Hq.
    destruct (is_prefix_snoc _ _ _ Hq) as [Hp | ->].
    - assert (Hp2 : is_prefix q (path.Join (git.root r) [".git"; "objects"]))
        by (rewrite under_git; eapply is_prefix_trans; [exact Hp | apply is_prefix_app]).
      destruct (mkdirAll_is_dir _ _ _ _ M2 Hp2) as [es ->]. discriminate.
    - rewrite (mkdirAll_lookup_other _ _ _ _ M2)
        by (rewrite under_git; apply not_prefix_sibling; discriminate).
      rewrite (mkdirAll_lookup_other _ _ _ _ M1 (Hlong _)).
      unfold d1. rewrite <- under_git. apply H3. }
  assert (Hd1 : is_prefix d1 (path.Join (git.root r) [".git"; "refs"]))
    by (rewrite under_git; apply is_prefix_app).
  destruct (mkdirAll_is_dir _ _ _ _ M3 Hd1) as [es Hes].
  destruct (writeFile_some d1 "HEAD" ("ref: refs/heads/master" ++ String LF "")
              t3 es Hes) as [t4 W].
  { intros es' L. apply (H4 es').
    rewrite under_git. fold d1.
    rewrite <- (mkdirAll_lookup_other _ _ _ _ M1 (Hlong _)).
    rewrite <- (mkdirAll_lookup_other _ _ _ _ M2)
      by (rewrite under_git; apply not_prefix_sibling; discriminate).
    rewrite <- (mkdirAll_lookup_other _ _ _ _ M3)
      by (rewrite under_git; apply not_prefix_sibling; discriminate).
    rewrite lookup_app, Hes. simpl. now rewrite L. }
  unfold d1 in W. rewrite <- under_git in W.
  destruct (Init_from_steps r w t1 t2 t3 t4 I M1 M2 M3 W) as (w1 & Hw & _).
  now exists w1.
Qed.

Lemma Init_succeeds_witness :
  exists w1,
    git.Init Sample.repo Sample.oneFile
    = ((git.cleanup Sample.repo, Ok tt), git.mkRepository ["repo"] true, w1).
Proof.
  apply (Init_succeeds Sample.repo Sample.oneFile).
  - reflexivity.
  - intros q data [s Hs].
    destruct q as [|x [|y [|z q]]]; try discriminate;
      inversion Hs; subst; discriminate.
  - discriminate.
  - discriminate.
  - discriminate.
Defined.

(** ** Cleaning up *)







(** ** Listing what is not a tree, and the empty tree *)

Lemma cut_take (delim : ascii) (a rest : string) :
  forall m,
    contains delim a = false -> String.length a < m ->
    cut delim (take m (a ++ String delim rest))
    = Some (a ++ String delim "", take (m - S (String.length a)) rest).
Proof.
  induction a as [|c a IH]; intros m Ha Hm; (destruct m as [|m]; [simpl in Hm; lia|]).
  - simpl. rewrite Ascii.eqb_refl. now rewrite Nat.sub_0_r.
  - simpl in *. apply orb_false_iff in Ha as [Hc Ha].
    rewrite Hc, (IH m Ha) by lia. reflexivity.
Qed.

(** The first [ReadString] reads through a delimiter that is among the
    first bytes of the input, however long the input is. *)
Lemma ReadString_first_any (delim : ascii) (a rest : string) :
  contains delim a = false ->
  String.length a < bufio.defaultBufSize ->
  exists b,
    bufio.ReadString delim (bufio.NewReader (a ++ String delim rest))
    = ((a ++ String delim "", None), b).
Proof.
  intros Ha Hlen. unfold bufio.ReadString, bufio.NewReader. cbn [bufio.rd].
  destruct (a ++ String delim rest) as [|c s] eqn:E.
  - destruct a; discriminate.
  - cbn [String.length bufio.readString bufio.buf bufio.rd cut].
    rewrite defaultBufSize_pos.
    unfold bufio.fill. cbn [bufio.buf bufio.rd append].
    rewrite <- E.
    set (m := Nat.min _ _).
    assert (Hm : String.length a < m).
    { subst m. cbn [String.length]. rewrite Nat.sub_0_r.
      apply Nat.min_glb_lt; [exact Hlen|].
      rewrite string_length_app. simpl. lia. }
    destruct (String.length s);
      cbn [bufio.readString bufio.buf]; rewrite (cut_take _ _ _ _ Ha Hm); eauto.
Qed.

(** [ReadTree] rejects every object whose type is not [tree]. *)
Lemma parseTree_wrong_type (typ rest : string) :
  contains SP typ = false ->
  String.length typ < bufio.defaultBufSize ->
  typ <> "tree" ->
  git.parseTree (typ ++ String SP rest)
  = Err (Errorf "expected type to be tree, got: %s" [typ ++ String SP ""]).
Proof.
  intros Hsp Hlen Hne. unfold git.parseTree.
  destruct (ReadString_first_any SP typ rest Hsp Hlen) as [b ->].
  cbn beta iota zeta.
  destruct (String.eqb (typ ++ String SP "") "tree ") eqn:E; [|reflexivity].
  apply String.eqb_eq in E. destruct Hne.
  change "tree " with ("tree" ++ String SP "") in E.
  revert E. clear. revert typ.
  induction "tree" as [|c t IH]; intros [|c' typ] E; simpl in *;
    try reflexivity; inversion E; subst.
  - destruct typ; discriminate.
  - destruct t; discriminate.
  - f_equal. now apply IH.
Qed.

(** X13. [ReadTree] on the hash of a blob that [WriteBlob] has stored fails
    with the type mismatch [expected type to be tree, got: blob ], whatever
    the size of the blob. *)
Theorem ReadTree_rejects_blobs (z : zlib.Codec) (r : git.Repository)
    (dir : pathname) (filename payload : string) (w w1 : world) (h : string) :
  lookup (path.Join dir [filename]) (tree w) = Some (File payload) ->
  zlib.inflate z (zlib.deflate z (blobFrame payload)) = Some (blobFrame payload) ->
  git.WriteBlob z r (git.DirFS dir) filename w = (Ok h, w1) ->
  fst (git.ReadTree z r h w1)
  = Err (Errorf "expected type to be tree, got: %s" ["blob "]).
Proof.
  intros Hfile Hz. unfold git.WriteBlob. unfold bind at 1. unfold onErr at 1.
  rewrite (hashBlob_file _ _ _ _ Hfile).
  intros H. apply (store_object z r) in H as (-> & Hl & _).
  rewrite (ReadTree_stored z r _ w1 _ _ (hash_length _) Hl Hz).
  unfold blobFrame. rewrite string_app_assoc.
  change ("blob " ++ (fmt.d (String.length payload) ++ String NUL "") ++ payload)
    with ("blob" ++ String SP ((fmt.d (String.length payload) ++ String NUL "")
                               ++ payload)).
  apply parseTree_wrong_type; [reflexivity | | discriminate].
  apply Nat.ltb_lt. reflexivity.
Qed.

Lemma ReadTree_rejects_blobs_witness :
  fst (git.ReadTree Sample.z Sample.repo "08cf6101416f0ce0dda3c80e627f333854c4085c"
         (snd (git.WriteBlob Sample.z Sample.repo (git.DirFS ["repo"])
                 "test.txt" Sample.testFile)))
  = Err (Errorf "expected type to be tree, got: %s" ["blob "]).
Proof.
  apply (ReadTree_rejects_blobs Sample.z Sample.repo ["repo"] "test.txt"
           "test content" Sample.testFile).
  - reflexivity.
  - vm_compute; reflexivity.
  - vm_compute; reflexivity.
Defined.

Lemma rangeEntries_only_git (rec : pathname -> node -> M string)
    (dirname : pathname) (dirEntries : list (string * node)) :
  forall es table w,
    Forall (fun e => fst e = ".git" /\ exists g, snd e = Dir g) es ->
    git.rangeEntries rec dirname dirEntries es table w = (Ok table, w).
Proof.
  induction es as [|[name dirEntry] es IH]; intros table w H; simpl.
  - reflexivity.
  - inversion H as [|? ? [Hname [g Hg]] H']; subst. simpl in Hname, Hg. subst.
    simpl. now apply IH.
Qed.

(** X14. For a directory with nothing to list (it is empty, or holds only
    [.git]) [WriteTree] returns the hash of git's empty tree, and [ReadTree]
    on that hash returns a single newline. *)
Theorem empty_directory_roundtrip (z : zlib.Codec) (r : git.Repository)
    (dirname : pathname) (es : list (string * node)) (w w1 : world) (h : string) :
  lookup dirname (tree w) = Some (Dir es) ->
  Forall (fun e => fst e = ".git" /\ exists g, snd e = Dir g) es ->
  zlib.inflate z (zlib.deflate z (treeFrame "")) = Some (treeFrame "") ->
  git.WriteTree z r dirname w = (Ok h, w1) ->
  h = "4b825dc642cb6eb9a060e54bf8d69288fbee4904" /\
  fst (git.ReadTree z r h w1) = Ok (String LF "").
Proof.
  intros Hdir Hes Hz Hw.
  assert (Ht : fst (git.treeTableAt dirname w) = Ok "").
  { unfold git.treeTableAt. rewrite Hdir. cbn [git.treeTable].
    now rewrite rangeEntries_only_git. }
  destruct (WriteTree_stored _ _ _ _ _ _ _ Ht Hw) as [-> Hl].
  split; [vm_compute; reflexivity|].
  rewrite (ReadTree_stored z r _ w1 _ _ (hash_length _) Hl Hz).
  vm_compute; reflexivity.
Qed.

Lemma empty_directory_roundtrip_witness :
  let w := mkWorld (Dir [("repo", Dir [(".git", Dir [("HEAD", File "x")])])]) [] in
  let w1 := snd (git.WriteTree Sample.z Sample.repo ["repo"] w) in
  git.WriteTree Sample.z Sample.repo ["repo"] w
  = (Ok "4b825dc642cb6eb9a060e54bf8d69288fbee4904", w1) /\
  fst (git.ReadTree Sample.z Sample.repo "4b825dc642cb6eb9a060e54bf8d69288fbee4904" w1)
  = Ok (String LF "").
Proof.
  cbv zeta.
  assert (Hw : git.WriteTree Sample.z Sample.repo ["repo"]
                 (mkWorld (Dir [("repo", Dir [(".git", Dir [("HEAD", File "x")])])]) [])
               = (Ok "4b825dc642cb6eb9a060e54bf8d69288fbee4904",
                  snd (git.WriteTree Sample.z Sample.repo ["repo"]
                         (mkWorld (Dir [("repo",
                                         Dir [(".git", Dir [("HEAD", File "x")])])]) []))))
    by (vm_compute; reflexivity).
  split; [exact Hw|].
  refine (proj2 (empty_directory_roundtrip Sample.z Sample.repo ["repo"]
                   [(".git", Dir [("HEAD", File "x")])] _ _ _ _ _ _ Hw)).
  - reflexivity.
  - repeat constructor. now exists [("HEAD", File "x")].
  - vm_compute; reflexivity.
Defined.



(** ** The table of a directory depends on its contents alone *)

Lemma fst_bind {A B : Type} (m m' : M A) (k k' : A -> M B) (w w' : world) :
  fst (m w) = fst (m' w') ->
  (forall a w1 w1', fst (k a w1) = fst (k' a w1')) ->
  fst (bind m k w) = fst (bind m' k' w').
Proof.
  intros Hm Hk. unfold bind.
  destruct (m w) as [[a|e|msg] w1], (m' w') as [[a'|e'|msg'] w1'];
    simpl in Hm; inversion Hm; subst; simpl; auto.
Qed.

Lemma fst_onErr {A : Type} (m m' : M A) (f : error -> error) (w w' : world) :
  fst (m w) = fst (m' w') -> fst (onErr m f w) = fst (onErr m' f w').
Proof.
  intros Hm. unfold onErr.
  destruct (m w) as [[a|e|msg] w1], (m' w') as [[a'|e'|msg'] w1'];
    simpl in Hm; inversion Hm; subst; reflexivity.
Qed.

Lemma fst_hashBlob (d d' : pathname) (entries : list (string * node))
    (name : string) (f : error -> error) (w w' : world) :
  fst (onErr (git.hashBlob (git.DirFSAt d entries) name) f w)
  = fst (onErr (git.hashBlob (git.DirFSAt d' entries) name) f w').
Proof.
  unfold git.hashBlob, onErr, bind, git.DirFSAt, lift, os.ReadAll, os.Size, ret.
  destruct (lookup_entry name entries) as [[data|g]|]; reflexivity.
Qed.

Lemma fst_rangeEntries (d d' : pathname) (dirEntries : list (string * node)) :
  forall es table w w',
    Forall (fun e => forall p p' w w',
              fst (git.treeTable p (snd e) w) = fst (git.treeTable p' (snd e) w')) es ->
    fst (git.rangeEntries git.treeTable d dirEntries es table w)
    = fst (git.rangeEntries git.treeTable d' dirEntries es table w').
Proof.
  induction es as [|[name dirEntry] es IH]; intros table w w' HF; simpl.
  - reflexivity.
  - inversion HF as [|? ? Hrec HF']; subst. simpl in Hrec.
    destruct dirEntry as [data|sub].
    + apply fst_bind; [apply fst_hashBlob|].
      intros [hash blob] w1 w1'. now apply IH.
    + destruct (String.eqb name ".git"); [now apply IH|].
      apply fst_bind; [apply fst_onErr, Hrec|].
      intros subHash w1 w1'. now apply IH.
Qed.

(** The result of [treeTable] is the same wherever the directory is and
    whatever the trace holds. *)
Lemma fst_treeTable (dir : node) :
  forall p p' w w',
    fst (git.treeTable p dir w) = fst (git.treeTable p' dir w').
Proof.
  induction dir as [data|es IH] using node_induction; intros p p' w w'; simpl.
  - reflexivity.
  - now apply fst_rangeEntries.
Qed.

(** X16. Two directories with the same contents have the same table, and so
    the same tree hash, wherever they are and whichever repository stores
    them. *)
Theorem same_contents_same_hash (z z' : zlib.Codec) (r r' : git.Repository)
    (d d' : pathname) (n : node) (w w1 w' w1' : world) (h h' : string) :
  lookup d (tree w) = Some n ->
  lookup d' (tree w') = Some n ->
  git.WriteTree z r d w = (Ok h, w1) ->
  git.WriteTree z' r' d' w' = (Ok h', w1') ->
  h = h'.
Proof.
  intros Hd Hd' Hw Hw'.
  assert (Ht : fst (git.treeTableAt d w) = fst (git.treeTableAt d' w'))
    by (unfold git.treeTableAt; rewrite Hd, Hd'; apply fst_treeTable).
  destruct (fst (git.treeTableAt d w)) as [table|e|msg] eqn:T.
  - destruct (WriteTree_stored _ _ _ _ _ _ _ T Hw) as [-> _].
    symmetry in Ht.
    now destruct (WriteTree_stored _ _ _ _ _ _ _ Ht Hw') as [-> _].
  - revert Hw. unfold git.WriteTree, bind, onErr.
    destruct (git.treeTableAt d w) as [[t|e0|m] w0]; simpl in T;
      inversion T; discriminate.
  - revert Hw. unfold git.WriteTree, bind, onErr.
    destruct (git.treeTableAt d w) as [[t|e0|m] w0]; simpl in T;
      inversion T; discriminate.
Qed.

Lemma same_contents_same_hash_witness :
  fst (git.WriteTree Sample.z (git.NewRepository ["p"]) ["p"] More.twins)
  = Ok "0549b890074462a70e63791ac295fd25ba93188e" /\
  fst (git.WriteTree Sample.z (git.NewRepository ["q"]) ["q"] More.twins)
  = Ok "0549b890074462a70e63791ac295fd25ba93188e".
Proof.
  assert (H1 : exists h w1,
             git.WriteTree Sample.z (git.NewRepository ["p"]) ["p"] More.twins
             = (Ok h, w1)) by (do 2 eexists; vm_compute; reflexivity).
  assert (H2 : git.WriteTree Sample.z (git.NewRepository ["q"]) ["q"] More.twins
               = (Ok "0549b890074462a70e63791ac295fd25ba93188e",
                  snd (git.WriteTree Sample.z (git.NewRepository ["q"]) ["q"]
                         More.twins))) by (vm_compute; reflexivity).
  destruct H1 as (h & w1 & H1).
  pose proof (same_contents_same_hash _ _ _ _ ["p"] ["q"]
                (Dir [("a", File "x"); ("d", Dir [("y", File "z")])])
                More.twins _ More.twins _ _ _ eq_refl eq_refl H1 H2) as E.
  subst h. rewrite H1, H2. split; reflexivity.
Defined.

(** ** [treeTable] on a well-formed tree *)

Lemma lookup_entry_In (k : string) (v : node) (l : list (string * node)) :
  NoDup (map fst l) -> In (k, v) l -> lookup_entry k l = Some v.
Proof.
  induction l as [|[k' v'] l IH]; intros Hnd Hin; [destruct Hin|].
  simpl in *. inversion Hnd as [|? ? Hnot Hnd']; subst.
  destruct Hin as [E | Hin].
  - inversion E; subst. now rewrite String.eqb_refl.
  - destruct (String.eqb k k') eqn:E; [|now apply IH].
    apply String.eqb_eq in E; subst k'.
    destruct Hnot. apply (in_map fst) in Hin. exact Hin.
Qed.






(** ** Storing twice *)

Lemma insert_insert (name : string) (n1 n2 : node) (es : list (string * node)) :
  insert_entry name n2 (insert_entry name n1 es) = insert_entry name n2 es.
Proof.
  assert (R : String.compare name name = Eq).
  { destruct (String.compare name name) eqn:C; trivial;
      pose proof (String.compare_antisym name name) as A;
      rewrite C in A; discriminate A. }
  induction es as [|[k v] es IH]; simpl.
  - now rewrite R.
  - destruct (String.compare name k) eqn:C; simpl.
    + now rewrite R.
    + now rewrite R.
    + now rewrite C, IH.
Qed.

Lemma mkdirAll_result (d : pathname) (n n' : node) :
  mkdirAll d n = Some n' -> exists g, n' = Dir g.
Proof.
  destruct d as [|name d]; simpl; destruct n as [|es]; try discriminate.
  - intros H; inversion H; eauto.
  - destruct (mkdirAll d _); [|discriminate]. intros H; inversion H; eauto.
Qed.

Lemma writeFile_result (q : pathname) (data : string) (n n' : node) :
  q <> [] -> writeFile q data n = Some n' -> exists g, n' = Dir g.
Proof.
  destruct q as [|name q]; [congruence|]. intros _. simpl.
  destruct n as [|es]; [discriminate|].
  destruct (lookup_entry name es) as [c|].
  - destruct (writeFile q data c); [|discriminate]. intros H; inversion H; eauto.
  - destruct q; [|discriminate]. intros H; inversion H; eauto.
Qed.

(** What [mkdirAll] does to the listing of a directory on the way. *)
Lemma mkdirAll_at (base : pathname) (name : string) (q : pathname) :
  forall n n' es,
    lookup base n = Some (Dir es) ->
    mkdirAll (base ++ name :: q)%list n = Some n' ->
    (exists g, lookup base n' = Some (Dir (insert_entry name (Dir g) es))) /\
    (forall data, lookup_entry name es <> Some (File data)).
Proof.
  induction base as [|x base IH]; intros n n' es Hb Hm; simpl in *.
  - inversion Hb; subst n.
    destruct (mkdirAll q _) as [c'|] eqn:Mk; [|discriminate].
    inversion Hm; subst n'.
    destruct (mkdirAll_result _ _ _ Mk) as [g ->]. split; [eauto|].
    intros data L. rewrite L in Mk. destruct q; discriminate.
  - destruct n as [|es0]; [discriminate|].
    destruct (lookup_entry x es0) as [c|] eqn:L; [|discriminate].
    destruct (mkdirAll _ c) as [c'|] eqn:Mk; [|discriminate].
    inversion Hm; subst n'. simpl. rewrite lookup_insert_entry.
    eapply IH; eassumption.
Qed.

(** What [writeFile] does to the listing of a directory above the parent of
    the file. *)
Lemma writeFile_at (base : pathname) (name : string) (q : pathname) (data : string) :
  q <> [] ->
  forall n n' es,
    lookup base n = Some (Dir es) ->
    writeFile (base ++ name :: q)%list data n = Some n' ->
    exists g, lookup base n' = Some (Dir (insert_entry name (Dir g) es)).
Proof.
  intros Hq.
  induction base as [|x base IH]; intros n n' es Hb Hw; simpl in *.
  - inversion Hb; subst n.
    destruct (lookup_entry name es) as [c|].
    + destruct (writeFile q data c) as [c'|] eqn:W; [|discriminate].
      inversion Hw; subst n'.
      destruct (writeFile_result _ _ _ _ Hq W) as [g ->]. eauto.
    + destruct q; [congruence | discriminate].
  - destruct n as [|es0]; [discriminate|].
    destruct (lookup_entry x es0) as [c|] eqn:L.
    + destruct (writeFile _ data c) as [c'|] eqn:W; [|discriminate].
      inversion Hw; subst n'. simpl. rewrite lookup_insert_entry.
      eapply IH; eassumption.
    + destruct (base ++ name :: q)%list eqn:E; [destruct base|]; discriminate.
Qed.

(** A path with something under it is a directory. *)
Lemma lookup_parent (p : pathname) (x : string) (s : pathname) (n m : node) :
  lookup (p ++ x :: s)%list n = Some m -> exists g, lookup p n = Some (Dir g).
Proof.
  rewrite lookup_app. destruct (lookup p n) as [[data|g]|]; try discriminate; eauto.
Qed.

(** Storing an object changes the listing of the root by its entry [.git]
    alone. *)
Lemma store_object_listing (z : zlib.Codec) (r : git.Repository)
    (hash output : string) (f1 f2 f3 : error -> error) (w w1 : world)
    (h : string) (es : list (string * node)) :
  lookup (git.root r) (tree w) = Some (Dir es) ->
  (let dirPath := path.Join (git.root r) [".git"; "objects"; take 2 hash] in
   onErr (os.MkdirAll dirPath) f1 ;;;
   file <- onErr (os.Create (path.Join dirPath [drop 2 hash])) f2 ;;
   onErr (zlib.Write z file output) f3 ;;;
   ret hash) w = (Ok h, w1) ->
  (exists g, lookup (git.root r) (tree w1)
             = Some (Dir (insert_entry ".git" (Dir g) es))) /\
  (forall data, lookup_entry ".git" es <> Some (File data)).
Proof.
  intros Hroot. cbv zeta.
  unfold bind, onErr, os.MkdirAll, os.Create, zlib.Write, os.Write, ret.
  rewrite objectPath_Join. simpl.
  destruct (mkdirAll _ (tree w)) as [t1|] eqn:Mk; [simpl|discriminate].
  destruct (writeFile _ "" t1) as [t2|] eqn:Cr; [simpl|discriminate].
  destruct (writeFile _ _ t2) as [t3|] eqn:Wr; [simpl|discriminate].
  intros H; inversion H; subst h w1; simpl.
  destruct (mkdirAll_at (git.root r) ".git" ["objects"; take 2 hash]
              _ _ _ Hroot Mk) as [[g1 H1] Hnf].
  destruct (writeFile_at (git.root r) ".git" ["objects"; take 2 hash; drop 2 hash]
              "" ltac:(discriminate) _ _ _ H1 Cr) as [g2 H2].
  destruct (writeFile_at (git.root r) ".git" ["objects"; take 2 hash; drop 2 hash]
              (zlib.deflate z output) ltac:(discriminate) _ _ _ H2 Wr) as [g3 H3].
  rewrite !insert_insert in H3. split; [eauto | exact Hnf].
Qed.

(** An object that is in the store can be stored again. *)
Lemma store_again (z : zlib.Codec) (r : git.Repository) (hash output old : string)
    (f1 f2 f3 : error -> error) (w : world) :
  lookup (git.objectPath r hash) (tree w) = Some (File old) ->
  exists w1,
    (let dirPath := path.Join (git.root r) [".git"; "objects"; take 2 hash] in
     onErr (os.MkdirAll dirPath) f1 ;;;
     file <- onErr (os.Create (path.Join dirPath [drop 2 hash])) f2 ;;
     onErr (zlib.Write z file output) f3 ;;;
     ret hash) w = (Ok hash, w1).
Proof.
  intros Hobj. cbv zeta.
  destruct (mkdirAll_some (path.Join (git.root r) [".git"; "objects"; take 2 hash])
              (tree w)) as [t1 Mk].
  { intros q data [s Hs] Hq.
    assert (E : git.objectPath r hash = (q ++ (s ++ [drop 2 hash]))%list)
      by (rewrite <- objectPath_Join; unfold path.Join at 1; rewrite Hs;
          now rewrite <- List.app_assoc).
    rewrite E in Hobj.
    destruct (s ++ [drop 2 hash])%list as [|x s'] eqn:Es; [destruct s; discriminate|].
    destruct (lookup_parent _ _ _ _ _ Hobj) as [g Hg]. congruence. }
  assert (H1 : lookup (git.objectPath r hash) t1 = Some (File old))
    by (rewrite (mkdirAll_lookup_other _ _ _ _ Mk (objectPath_not_prefix_dir _ _ _));
        exact Hobj).
  destruct (writeFile_over_file _ "" _ _ H1) as [t2 Cr].
  destruct (writeFile_over_file _ (zlib.deflate z output) _ _
              (writeFile_lookup _ _ _ _ Cr)) as [t3 Wr].
  unfold bind, onErr, os.MkdirAll, os.Create, zlib.Write, os.Write, ret.
  rewrite objectPath_Join.
  cbn beta iota zeta delta [tree trace os.log fst snd].
  rewrite Mk. cbn beta iota zeta delta [tree trace os.log fst snd].
  rewrite Cr. cbn beta iota zeta delta [tree trace os.log fst snd].
  rewrite Wr. eauto.
Qed.

(** ** [treeTable] does not look into [.git] *)

(** The loop gives the same result with two listings to open files in, when
    they agree on the names of the files it visits. *)
Lemma rangeEntries_agree (rec : pathname -> node -> M string) (d : pathname)
    (all all' : list (string * node)) :
  forall es table w,
    (forall name data, In (name, File data) es ->
                       lookup_entry name all' = lookup_entry name all) ->
    git.rangeEntries rec d all' es table w = git.rangeEntries rec d all es table w.
Proof.
  induction es as [|[name dirEntry] es IH]; intros table w H; simpl.
  - reflexivity.
  - assert (H' : forall name data, In (name, File data) es ->
                   lookup_entry name all' = lookup_entry name all)
      by (intros n0 d0 Hin; apply (H n0 d0); now right).
    destruct dirEntry as [data|sub].
    + assert (E : git.hashBlob (git.DirFSAt d all') name
                  = git.hashBlob (git.DirFSAt d all) name).
      { unfold git.hashBlob, git.DirFSAt. now rewrite (H name data (or_introl eq_refl)). }
      rewrite E. unfold bind.
      destruct (onErr _ _ w) as [[[hash blob]|e|msg] w0]; trivial. now apply IH.
    + destruct (String.eqb name ".git"); [now apply IH|].
      unfold bind.
      destruct (onErr _ _ w) as [[subHash|e|msg] w0]; trivial. now apply IH.
Qed.

(** A directory [.git] that comes into a listing, or changes in it, makes no
    difference to the table. *)
Lemma rangeEntries_insert_git (rec : pathname -> node -> M string) (d : pathname)
    (all all' : list (string * node)) (g : list (string * node)) :
  (forall v, In (".git", v) all -> exists g0, v = Dir g0) ->
  (forall k, k <> ".git" -> lookup_entry k all' = lookup_entry k all) ->
  forall es table w,
    incl es all ->
    git.rangeEntries rec d all' (insert_entry ".git" (Dir g) es) table w
    = git.rangeEntries rec d all es table w.
Proof.
  intros Hgit Hother.
  assert (Hfiles : forall es, incl es all ->
            forall name data, In (name, File data) es ->
              lookup_entry name all' = lookup_entry name all).
  { intros es Hin name data He. apply Hother. intros ->.
    destruct (Hgit _ (Hin _ He)) as [g0 E]. discriminate E. }
  induction es as [|[k v] es IH]; intros table w Hin.
  - reflexivity.
  - assert (Hin' : incl es all) by (intros e He; apply Hin; now right).
    cbn [insert_entry].
    destruct (String.compare ".git" k) eqn:C.
    + apply String.compare_eq_iff in C; subst k.
      destruct (Hgit v (Hin _ (or_introl eq_refl))) as [g0 ->].
      cbn [git.rangeEntries String.eqb Ascii.eqb Bool.eqb].
      apply rangeEntries_agree, (Hfiles es Hin').
    + change (git.rangeEntries rec d all' ((k, v) :: es) table w
              = git.rangeEntries rec d all ((k, v) :: es) table w).
      apply rangeEntries_agree, (Hfiles _ Hin).
    + cbn [git.rangeEntries].
      destruct v as [data|sub].
      * assert (E : git.hashBlob (git.DirFSAt d all') k
                    = git.hashBlob (git.DirFSAt d all) k).
        { unfold git.hashBlob, git.DirFSAt.
          now rewrite (Hfiles _ Hin k data (or_introl eq_refl)). }
        rewrite E. unfold bind.
        destruct (onErr _ _ w) as [[[hash blob]|e|msg] w0]; trivial. now apply IH.
      * destruct (String.eqb k ".git"); [now apply IH|].
        unfold bind.
        destruct (onErr _ _ w) as [[subHash|e|msg] w0]; trivial. now apply IH.
Qed.

(** X18. [WriteTree] on the root of the repository can be repeated: the
    object that the first call has stored under [.git] does not change the
    table, and the second call returns the same hash. *)
Theorem WriteTree_repeatable (z : zlib.Codec) (r : git.Repository)
    (es : list (string * node)) (w w1 : world) (h : string) :
  lookup (git.root r) (tree w) = Some (Dir es) ->
  NoDup (map fst es) ->
  git.WriteTree z r (git.root r) w = (Ok h, w1) ->
  exists w2, git.WriteTree z r (git.root r) w1 = (Ok h, w2).
Proof.
  intros Hroot Hnd Hw. pose proof Hw as Hw0. revert Hw.
  unfold git.WriteTree at 1. unfold bind at 1. unfold onErr at 1.
  pose proof (keeps_treeTableAt (git.root r) w) as K.
  destruct (git.treeTableAt (git.root r) w) as [[table|e|msg] w0] eqn:T;
    try discriminate.
  cbn [snd] in K. intros Hs.
  assert (Hroot0 : lookup (git.root r) (tree w0) = Some (Dir es)) by now rewrite K.
  destruct (store_object_listing _ _ _ _ _ _ _ _ _ _ _ Hroot0 Hs) as [[g Hg] Hnf].
  apply store_object in Hs as (-> & Hobj & _).
  (* the table is the same in the world that the first call leaves *)
  assert (T1 : fst (git.treeTableAt (git.root r) w1) = Ok table).
  { unfold git.treeTableAt. rewrite Hg. cbn [git.treeTable].
    rewrite rangeEntries_insert_git with (all := es).
    - change (fst (git.treeTable (git.root r) (Dir es) w1) = Ok table).
      rewrite (fst_treeTable (Dir es) _ (git.root r) w1 w).
      unfold git.treeTableAt in T. rewrite Hroot in T. now rewrite T.
    - intros v Hin. pose proof (lookup_entry_In _ _ _ Hnd Hin) as L.
      destruct v as [data|g0]; [destruct (Hnf data L) | eauto].
    - intros k Hk. now apply lookup_insert_entry_other.
    - apply incl_refl. }
  pose proof (keeps_treeTableAt (git.root r) w1) as K1.
  unfold git.WriteTree. unfold bind at 1. unfold onErr at 1.
  destruct (git.treeTableAt (git.root r) w1) as [[table1|e|msg] w1'];
    cbn [fst snd] in T1, K1; inversion T1; subst table1.
  rewrite <- K1 in Hobj.
  destruct (store_again z r _ (treeFrame table) _
              (Wrapf "failed to create the directory: %w" [])
              (Wrapf "failed to create the file: %w" [])
              (Wrapf "failed to compress the contents: %w" []) w1' Hobj) as [w2 H2].
  exists w2. exact H2.
Qed.

Lemma WriteTree_repeatable_witness :
  let w1 := snd (git.WriteTree Sample.z Sample.repo ["repo"] More.project) in
  fst (git.WriteTree Sample.z Sample.repo ["repo"] More.project)
  = Ok "0549b890074462a70e63791ac295fd25ba93188e" /\
  exists w2, git.WriteTree Sample.z Sample.repo ["repo"] w1
             = (Ok "0549b890074462a70e63791ac295fd25ba93188e", w2).
Proof.
  cbv zeta. split; [vm_compute; reflexivity|].
  apply (WriteTree_repeatable Sample.z Sample.repo
           [(".git", Dir [("HEAD", File "x")]); ("a", File "x");
            ("d", Dir [("y", File "z")])] More.project).
  - reflexivity.
  - repeat constructor; simpl; intuition discriminate.
  - vm_compute; reflexivity.
Defined.

(** ** The earlier revision *)




Lemma join_empty_names (n : nat) :
  String.length (strings.Join (repeat "" n) (String LF "")) = n - 1.
Proof.
  induction n as [|[|n] IH]; trivial.
  change (repeat "" (S (S n))) with ("" :: repeat "" (S n))%list.
  change (String.length (String LF (strings.Join (repeat "" (S n)) (String LF "")))
          = S (S n) - 1).
  cbn [String.length]. rewrite IH. lia.
Qed.



(** X20. Taking [hashBlob] out of [WriteBlob] has kept what it does.  Where
    [hashBlob] succeeds the two revisions return the same and leave the same
    file tree and trace; where it fails, they fail together, and the error of
    the later revision is that of the earlier one wrapped once more. *)
Theorem hashBlob_taken_out (z : zlib.Codec) (r : git.Repository) (fsys : git.FS)
    (filename : string) (w : world) :
  match git.hashBlob fsys filename w with
  | (Ok _, _) =>
      git.WriteBlob z r fsys filename w = Earlier.WriteBlob z r fsys filename w
  | (Err e, w0) =>
      Earlier.WriteBlob z r fsys filename w = (Err e, w0) /\
      git.WriteBlob z r fsys filename w
      = (Err (Wrapf "failed to hash the file: %w" [] e), w0)
  | (Panic msg, w0) =>
      Earlier.WriteBlob z r fsys filename w = (Panic msg, w0) /\
      git.WriteBlob z r fsys filename w = (Panic msg, w0)
  end.
Proof.
  unfold git.WriteBlob, Earlier.WriteBlob, git.hashBlob, bind, onErr, lift, ret.
  destruct (fsys filename w) as [[f|e|msg] w0]; cbn [fst snd]; auto.
  destruct (os.ReadAll f) as [fBuf|e|msg]; cbn [fst snd]; auto.
Qed.

(** ** Writing a blob twice *)

(** X21. [WriteBlob] can be repeated on a file that is not on the way to its
    own object: the second call returns the same hash and leaves the stored
    object as the first one wrote it. *)
Theorem WriteBlob_repeatable (z : zlib.Codec) (r : git.Repository)
    (dir : pathname) (filename payload : string) (w w1 : world) (h : string) :
  lookup (path.Join dir [filename]) (tree w) = Some (File payload) ->
  ~ is_prefix (path.Join dir [filename]) (git.objectPath r h) ->
  git.WriteBlob z r (git.DirFS dir) filename w = (Ok h, w1) ->
  exists w2,
    git.WriteBlob z r (git.DirFS dir) filename w1 = (Ok h, w2) /\
    lookup (git.objectPath r h) (tree w2) = lookup (git.objectPath r h) (tree w1).
Proof.
  intros Hfile Hway. unfold git.WriteBlob at 1. unfold bind at 1. unfold onErr at 1.
  rewrite (hashBlob_file _ _ _ _ Hfile).
  intros H. apply (store_object z r) in H as (E & Hobj & Hother).
  subst h.
  assert (Hfile1 : lookup (path.Join dir [filename]) (tree w1) = Some (File payload))
    by (rewrite (Hother _ Hway); exact Hfile).
  unfold git.WriteBlob. unfold bind at 1. unfold onErr at 1.
  rewrite (hashBlob_file _ _ _ _ Hfile1).
  destruct (store_again z r (fmt.x (sha1.Sum (blobFrame payload)))
              (blobFrame payload) _
              (Wrapf "failed to create the directory: %w" [])
              (Wrapf "failed to create the file: %w" [])
              (Wrapf "failed to compress the contents: %w" [])
              (os.log (sys_Open (path.Join dir [filename])) w1) Hobj) as [w2 H2].
  exists w2. split; [exact H2|].
  apply (store_object z r) in H2 as (_ & Hobj2 & _).
  now rewrite Hobj2, Hobj.
Qed.

Lemma WriteBlob_repeatable_witness :
  let w1 := snd (git.WriteBlob Sample.z Sample.repo (git.DirFS ["repo"])
                   "test.txt" Sample.testFile) in
  exists w2,
    git.WriteBlob Sample.z Sample.repo (git.DirFS ["repo"]) "test.txt" w1
    = (Ok "08cf6101416f0ce0dda3c80e627f333854c4085c", w2) /\
    lookup (git.objectPath Sample.repo "08cf6101416f0ce0dda3c80e627f333854c4085c")
      (tree w2)
    = lookup (git.objectPath Sample.repo "08cf6101416f0ce0dda3c80e627f333854c4085c")
        (tree w1).
Proof.
  cbv zeta.
  apply (WriteBlob_repeatable Sample.z Sample.repo ["repo"] "test.txt"
           "test content" Sample.testFile).
  - reflexivity.
  - intros [s Hs]. vm_compute in Hs. discriminate Hs.
  - vm_compute; reflexivity.
Defined.
